(** * PypeIt [ScienceImage]: frame combination, quality mask, slit loops

    A shallow embedding of [pypeit/scienceimage.py]: the bit mask of a
    science image, the stacking of processed frames in [proc], the
    composite mask of [_build_mask], and the slit loops of [global_skysub]
    and [local_skysub_extract], with the properties of the reduction that
    the specification states about them.

    Conventions of the embedding.
    - A numpy array of the detector shape is its element function
      [pixel -> A]; an elementwise numpy expression becomes a pointwise
      definition, a reduction over axis 0 of a stack a sum over the list of
      frames.
    - A float64 is a [float]: an exact rational, or one of the IEEE special
      values.  Rounding and the sign of zero are not modelled.
    - The attributes of the Python object that the methods assign live in a
      dictionary from attribute names to values, as [getattr] sees them;
      the 1-D boolean array [maskslits] is shared with the caller and lives
      in a store of arrays.
    - A method is a computation in a state-and-exception monad over the
      [world]: the object, the array store, the warnings printed by [msgs]
      and the raw frames read so far.  [msgs.error] raises.
    - Where the source hands [None] to numpy in place of an array, the
      method raises at the first numpy operation on it; numpy raises there
      or at a later operation on what it made of [None].
    - The plots and the [show] options of the methods are left out, and so
      are the measurements that the extraction kernel writes into the
      objects it is given. *)

From Stdlib Require Import ZArith QArith Qcanon List Bool String Lia.
From stdpp Require Import base option list gmap strings pretty.

Local Open Scope Z_scope.

(** ** Floating-point values *)

Module F.

Inductive float : Type :=
| Fin (q : Qc)
| PInf
| NInf
| NaN.

Definition of_Z (z : Z) : float := Fin (Qc_of_Z z).
Definition of_nat (n : nat) : float := of_Z (Z.of_nat n).
Definition of_bool (b : bool) : float := of_Z (Z.b2z b).
Definition frac (n : Z) (d : positive) : float := Fin (Q2Qc (n # d)).

Definition zero : float := of_Z 0.
Definition one : float := of_Z 1.

Definition Qc_eqb (x y : Qc) : bool := Qeq_bool x y.
Definition Qc_leb (x y : Qc) : bool := Qle_bool x y.
Definition Qc_ltb (x y : Qc) : bool := negb (Qle_bool y x).
Definition Qc_sgn (x : Qc) : Z := Z.sgn (Qnum x).

Definition isfinite (x : float) : bool :=
  match x with Fin _ => true | _ => false end.

(** [x == y] on floats: false as soon as one side is NaN. *)
Definition eqb (x y : float) : bool :=
  match x, y with
  | Fin a, Fin b => Qc_eqb a b
  | PInf, PInf | NInf, NInf => true
  | _, _ => false
  end.

(** [x <= y]. *)
Definition leb (x y : float) : bool :=
  match x, y with
  | NaN, _ | _, NaN => false
  | Fin a, Fin b => Qc_leb a b
  | NInf, _ | _, PInf => true
  | _, _ => false
  end.

(** [x < y]. *)
Definition ltb (x y : float) : bool :=
  match x, y with
  | NaN, _ | _, NaN => false
  | Fin a, Fin b => Qc_ltb a b
  | PInf, _ | _, NInf => false
  | _, _ => true
  end.

Definition geb (x y : float) : bool := leb y x.
Definition gtb (x y : float) : bool := ltb y x.

Definition neg (x : float) : float :=
  match x with
  | Fin a => Fin (- a)%Qc
  | PInf => NInf
  | NInf => PInf
  | NaN => NaN
  end.

Definition add (x y : float) : float :=
  match x, y with
  | NaN, _ | _, NaN => NaN
  | Fin a, Fin b => Fin (a + b)%Qc
  | PInf, NInf | NInf, PInf => NaN
  | PInf, _ | _, PInf => PInf
  | NInf, _ | _, NInf => NInf
  end.

Definition sub (x y : float) : float := add x (neg y).

(** An infinity of the sign [s]; NaN for [s = 0] (infinity times zero). *)
Definition inf_of_sgn (s : Z) : float :=
  match s with
  | Z0 => NaN
  | Zpos _ => PInf
  | Zneg _ => NInf
  end.

Definition sgn (x : float) : Z :=
  match x with
  | Fin a => Qc_sgn a
  | PInf => 1
  | NInf => -1
  | NaN => 0
  end.

Definition mul (x y : float) : float :=
  match x, y with
  | NaN, _ | _, NaN => NaN
  | Fin a, Fin b => Fin (a * b)%Qc
  | _, _ => inf_of_sgn (sgn x * sgn y)
  end.

Definition div (x y : float) : float :=
  match x, y with
  | NaN, _ | _, NaN => NaN
  | Fin a, Fin b =>
      if Qc_eqb b 0%Qc then inf_of_sgn (Qc_sgn a) else Fin (a / b)%Qc
  | Fin _, _ => zero
  | _, Fin b => if Qc_eqb b 0%Qc then x else inf_of_sgn (sgn x * Qc_sgn b)
  | _, _ => NaN
  end.

(** [x ** 2]. *)
Definition sq (x : float) : float := mul x x.

(** [np.sum] of a 1-D array of floats. *)
Definition sum (l : list float) : float := fold_left add l zero.

End F.

Abbreviation float := F.float.

(** ** The bit mask of a science image *)

Module BitMask.

(** The keys of [ScienceImageBitMask], in the order of their declaration. *)
Inductive flag : Type :=
| BPM | CR | SATURATION | MINCOUNTS | OFFSLITS
| IS_NAN | IVAR0 | IVAR_NAN | EXTRACT.

(** Modelled from the spec: the base class [BitMask] ([pypeit/bitmask.py])
    is not among the sources.  Each name gets a bit index in declaration
    order; [turn_on] sets the bit of a flag in a value; [flagged] tests
    it; the minimum unsigned dtype of nine flags has 16 bits. *)
Definition bit (f : flag) : Z :=
  match f with
  | BPM => 0 | CR => 1 | SATURATION => 2 | MINCOUNTS => 3 | OFFSLITS => 4
  | IS_NAN => 5 | IVAR0 => 6 | IVAR_NAN => 7 | EXTRACT => 8
  end.

Definition turn_on (v : Z) (f : flag) : Z := Z.lor v (Z.shiftl 1 (bit f)).

Definition flagged (v : Z) (f : flag) : bool := Z.testbit v (bit f).

Definition width : Z := 16.

End BitMask.

Import BitMask.

(** ** Arrays, attribute values and the world *)

Definition pixel : Type := (nat * nat)%type.
Abbreviation image A := (pixel -> A) (only parsing).

(** The slit traces of [TraceSlits]: [lcen] and [rcen] have one column per
    slit. *)
Record TSlits : Type := mkTSlits {
  nslits : nat;
  lcen : nat -> nat -> float;
  rcen : nat -> nat -> float
}.

Record SpecObj : Type := mkSpecObj {
  slitid : nat;
  objid : nat
}.

(** What an attribute of the object (or an argument of a method) can hold. *)
Inductive value : Type :=
| VNone
| VFloatImg (a : image float)
| VBoolImg (a : image bool)
| VIntImg (a : image Z)
| VBoolArr (r : nat)
| VSlits (t : TSlits)
| VObjs (l : list SpecObj)
| VStrs (l : list string).

Definition is_None (v : value) : bool :=
  match v with VNone => true | _ => false end.

Record ScienceImage : Type := mkScienceImage {
  file_list : list string;
  bg_file_list : list string;
  nsci : nat;
  nbg : nat;
  ir_redux : bool;
  attrs : gmap string value
}.

Record world : Type := mkWorld {
  self : ScienceImage;
  arrays : list (list bool);
  warnings : list string;
  frames_read : list string
}.

Inductive exn : Type :=
| PypeItError (msg : string)
| TypeError (msg : string)
| AttributeError (msg : string)
| IndexError (msg : string)
| ValueError (msg : string)
| UnboundLocalError (var : string).

Inductive result (A : Type) : Type :=
| Ok (a : A)
| Raise (e : exn).

Arguments Ok {A} a.
Arguments Raise {A} e.

(** ** The monad of methods *)

Definition M (A : Type) : Type := world -> result A * world.

Definition ret {A} (a : A) : M A := fun w => (Ok a, w).

Definition bind {A B} (m : M A) (f : A -> M B) : M B :=
  fun w => match m w with
           | (Ok a, w') => f a w'
           | (Raise e, w') => (Raise e, w')
           end.

Definition raise {A} (e : exn) : M A := fun w => (Raise e, w).

Declare Scope meth_scope.
Delimit Scope meth_scope with meth.
Notation "x <- m ;; k" := (bind m (fun x => k))
  (at level 100, m at next level, right associativity) : meth_scope.
Notation "m ;;; k" := (bind m (fun _ => k))
  (at level 100, right associativity) : meth_scope.
Local Open Scope meth_scope.

Definition get_self : M ScienceImage := fun w => (Ok (self w), w).

Definition set_attrs (a : gmap string value) (s : ScienceImage) : ScienceImage :=
  mkScienceImage (file_list s) (bg_file_list s) (nsci s) (nbg s) (ir_redux s) a.

(** [getattr(self, name)]. *)
Definition getattr (name : string) : M value :=
  fun w => match attrs (self w) !! name with
           | Some v => (Ok v, w)
           | None => (Raise (AttributeError name), w)
           end.

(** [self.name = v]. *)
Definition setattr (name : string) (v : value) : M unit :=
  fun w => (Ok tt, mkWorld (set_attrs (<[name := v]> (attrs (self w))) (self w))
                           (arrays w) (warnings w) (frames_read w)).

(** [msgs.warn(msg)]. *)
Definition warn (msg : string) : M unit :=
  fun w => (Ok tt, mkWorld (self w) (arrays w) (warnings w ++ [msg]) (frames_read w)).

(** A raw frame is read from disk. *)
Definition read_frame (file : string) : M unit :=
  fun w => (Ok tt, mkWorld (self w) (arrays w) (warnings w) (frames_read w ++ [file])).

(** A new 1-D boolean array. *)
Definition alloc (a : list bool) : M nat :=
  fun w => (Ok (length (arrays w)),
            mkWorld (self w) (arrays w ++ [a]) (warnings w) (frames_read w)).

Definition load (r : nat) : M (list bool) :=
  fun w => match arrays w !! r with
           | Some a => (Ok a, w)
           | None => (Raise (ValueError "dangling array"), w)
           end.

Definition store (r : nat) (a : list bool) : M unit :=
  fun w => (Ok tt, mkWorld (self w) (<[r := a]> (arrays w)) (warnings w) (frames_read w)).

Fixpoint mapM {A B} (f : A -> M B) (l : list A) : M (list B) :=
  match l with
  | [] => ret []
  | x :: l' => y <- f x ;; ys <- mapM f l' ;; ret (y :: ys)
  end.

(** numpy applied to an attribute: the array it holds, or the exception
    Python raises when it holds something else ([None], mostly). *)
Definition float_img (e : exn) (v : value) : M (image float) :=
  match v with VFloatImg a => ret a | _ => raise e end.

Definition bool_img (e : exn) (v : value) : M (image bool) :=
  match v with VBoolImg a => ret a | _ => raise e end.

Definition int_img (e : exn) (v : value) : M (image Z) :=
  match v with VIntImg a => ret a | _ => raise e end.

Definition none_has_no (attr : string) : exn :=
  AttributeError ("'NoneType' object has no attribute '" ++ attr ++ "'").

Definition not_subscriptable : exn :=
  TypeError "'NoneType' object is not subscriptable".

Definition bad_operand (op : string) : exn :=
  TypeError ("unsupported operand type(s) for " ++ op).

(** ** The collaborators

    The spectrograph, [ProcessImages], [utils.calc_ivar], L.A.Cosmic,
    astropy's [SigmaClip] and the sky and extraction kernels of
    [pypeit.core] are outside this module; the methods are parametric in
    them. *)

Record Collab : Type := mkCollab {
  (** [spectrograph.detector[det-1]['saturation']] and [['mincounts']] *)
  saturation : float;
  mincounts : float;
  (** the pixels of the detector frame, for the reductions over a slit *)
  frame_pixels : list pixel;
  (** [ProcessImages(...).process(bias_subtract=bias, pixel_flat=pixel_flat,
      illum_flat=illum_flat, bpm=bpm, apply_gain=True, trim=True)] *)
  process : string -> value -> value -> value -> value -> image float;
  build_rawvarframe : string -> image float;
  build_rn2img : string -> image float;
  (** [utils.calc_ivar], elementwise *)
  calc_ivar : float -> float;
  (** [procimg.lacosmic(det, stack, saturation, nonlinear, varframe=...)] *)
  lacosmic : image float -> image float -> image bool;
  (** the [mask] of [SigmaClip(sigma, maxiters, cenfunc='median')(data,
      axis=0, masked=True)], from the data, its mask, sigma and maxiters *)
  sigclip_mask :
    list (image float) -> list (image bool) -> float -> nat -> list (image bool);
  (** [spectrograph.slitmask(tslits_dict, binning=binning)] *)
  spectrograph_slitmask : TSlits -> image Z;
  (** [skysub.global_skysub(sciimg, sciivar, tilts, thismask, lcen, rcen,
      inmask=, bsp=, pos_mask=, show_fit=)]: the sky on the pixels of
      [thismask] *)
  skysub_global_skysub :
    image float -> image float -> image float -> image bool ->
    (nat -> float) -> (nat -> float) -> image bool -> Z -> image float;
  (** [skysub.local_skysub_extract(sciimg, sciivar, tilts, waveimg,
      global_sky, rn2img, thismask, lcen, rcen, sobjs, std=, bsp=, inmask=)]:
      sky model, object model, ivar model and extraction mask on the pixels
      of [thismask] *)
  skysub_local_skysub_extract :
    image float -> image float -> image float -> image float ->
    image float -> image float -> image bool ->
    (nat -> float) -> (nat -> float) -> list SpecObj -> image bool ->
    image float * image float * image float * image bool
}.

(** ** Python integers as truth values *)

(** [~b] on a Python [bool] is the bitwise complement of the integer. *)
Definition py_invert (b : bool) : Z := Z.lnot (Z.b2z b).

(** The truth value of a Python integer. *)
Definition truthy (z : Z) : bool := negb (z =? 0).

(** ** Elementwise helpers *)

(** [mask[indx] = bitmask.turn_on(mask[indx], flag)] *)
Definition turn_on_where (mask : image Z) (indx : image bool) (f : flag) : image Z :=
  fun p => if indx p then turn_on (mask p) f else mask p.

(** [np.sum(stack, axis=0)] *)
Definition sum_axis0 (stack : list (image float)) : image float :=
  fun p => F.sum (map (fun a => a p) stack).

(** [np.sum(stack, axis=0)] of a boolean stack: the count of the frames
    that are true *)
Definition count_axis0 (stack : list (image bool)) : image Z :=
  fun p => Z.of_nat (length (filter (fun a => a p = true) stack)).

(** [a * b], elementwise, on two stacks *)
Definition mul_stack (a b : list (image float)) : list (image float) :=
  zip_with (fun x y => fun p => F.mul (x p) (y p)) a b.

Definition sq_stack (a : list (image float)) : list (image float) :=
  map (fun x => fun p => F.sq (x p)) a.

(** ** Stacking *)

(** The weights of [proc]: [np.ones(nsci)/float(nsci)], followed in a
    difference-imaging reduction by [-1.0*np.ones(nbg)/float(nbg)]. *)
Definition proc_weights (nsci nbg : nat) (ir_redux : bool) : list float :=
  if ir_redux
  then replicate nsci (F.div F.one (F.of_nat nsci))
       ++ replicate nbg (F.div (F.mul (F.of_Z (-1)) F.one) (F.of_nat nbg))
  else replicate nsci (F.div F.one (F.of_nat nsci)).

(** [np.einsum('i,ijk->ijk', weights, outmask_stack)] *)
Definition weights_stack (weights : list float) (outmask_stack : list (image bool))
  : list (image float) :=
  zip_with (fun wgt o => fun p => F.mul wgt (F.of_bool (o p))) weights outmask_stack.

(** [weights_sum + (weights_sum == 0.0)] *)
Definition norm (weights_sum : image float) : image float :=
  fun p => F.add (weights_sum p) (F.of_bool (F.eqb (weights_sum p) F.zero)).

(** [np.sum(crmask_stack, axis=0) == nfiles] *)
Definition stack_crmask (crmask_stack : list (image bool)) (nfiles : nat) : image bool :=
  fun p => count_axis0 crmask_stack p =? Z.of_nat nfiles.

(** [np.sum(sciimg_stack*weights_stack, axis=0)/(weights_sum + (weights_sum == 0.0))] *)
Definition stack_mean (stack ws : list (image float)) : image float :=
  fun p => F.div (sum_axis0 (mul_stack stack ws) p) (norm (sum_axis0 ws) p).

(** [np.sum(stack*weights_stack**2, axis=0)/(weights_sum + (weights_sum == 0.0))**2] *)
Definition stack_var (stack ws : list (image float)) : image float :=
  fun p => F.div (sum_axis0 (mul_stack stack (sq_stack ws)) p)
                 (F.sq (norm (sum_axis0 ws) p)).

(** The default [sigrej] of [proc] for [nsci] science frames. *)
Definition default_sigrej (n : nat) : float :=
  if (n <=? 2)%nat then F.of_Z 100
  else if (n =? 3)%nat then F.frac 11 10
  else if (n =? 4)%nat then F.frac 13 10
  else if (n =? 5)%nat then F.frac 16 10
  else if (n =? 6)%nat then F.frac 19 10
  else F.of_Z 2.

(** What [proc] returns. *)
Record ProcResult : Type := mkProcResult {
  r_sciimg : image float;
  r_sciivar : image float;
  r_rn2img : image float;
  r_mask : image Z;
  r_crmask : image bool
}.

(** What the stacking of [proc] assigns before the mask is built. *)
Record Stacked : Type := mkStacked {
  s_crmask : image bool;
  s_sciimg : image float;
  s_sciivar : image float;
  s_rn2img : image float
}.

(** The stacks of [read_stack], one record per frame. *)
Record Frame : Type := mkFrame {
  f_sciimg : image float;
  f_sciivar : image float;
  f_rn2img : image float;
  f_crmask : image bool;
  f_mask : image Z
}.

(** ** The methods of [ScienceImage] *)

(** [ScienceImage.__init__]: the attributes that are assigned [None] (or
    the empty list of steps); [rn2img] and [waveimg] are not assigned. *)
Definition init_attrs : gmap string value :=
  list_to_map
    (("steps", VStrs []) ::
     map (fun n => (n, VNone))
       ["bpm"; "bias"; "pixel_flat"; "illum_flat"; "tslits_dict"; "tilts";
        "mswave"; "maskslits"; "slitmask"; "sciimg"; "sciivar"; "ivarmodel";
        "objimage"; "skyimage"; "global_sky"; "skymask"; "objmask"; "outmask";
        "mask"; "extractmask"; "sobjs_obj"; "sobjs"; "crmask"]).

Definition __init__ (files bg_files : list string) : ScienceImage :=
  mkScienceImage files bg_files (length files) (length bg_files)
                 (0 <? length bg_files)%nat init_attrs.

(** A world with a newly constructed object and nothing else. *)
Definition fresh (files bg_files : list string) : world :=
  mkWorld (__init__ files bg_files) [] [] [].

(** [np.where(~maskslits)[0]] *)
Definition where_not (a : list bool) : list nat :=
  filter (fun i => a !! i = Some false) (seq 0 (length a)).

(** [self.steps.append(name)] *)
Definition append_step (name : string) : M unit :=
  st <- getattr "steps" ;;
  match st with
  | VStrs l => setattr "steps" (VStrs (l ++ [name]))
  | _ => raise (none_has_no "append")
  end.

Section Methods.

Variable E : Collab.

(** [_chk_objs]: the first of [items] that is [None] is reported, with
    the stage that sets it. *)
Fixpoint _chk_objs (items : list string) : M bool :=
  match items with
  | [] => ret true
  | obj :: rest =>
      v <- getattr obj ;;
      if is_None v then
        warn ("You need to generate " ++ obj ++ " prior to this step..") ;;;
        (if bool_decide (obj ∈ ["sciimg"; "sciivar"; "rn2_img"]) then
           warn "Run the process() method"
         else if bool_decide (obj ∈ ["sobjs_obj"]) then
           warn "Run the find_objects() method"
         else if bool_decide (obj ∈ ["global_sky"]) then
           warn "Run the global_skysub() method"
         else if bool_decide (obj ∈ ["tilts"; "tslits_dict"]) then
           warn "Calibrations missing: these were required to run find_objects() and global_skysub()"
         else if bool_decide (obj ∈ ["waveimg"]) then
           warn "Calibrations missing: waveimg must be input as a parameter. Try running calibrations"
         else ret tt) ;;;
        ret false
      else _chk_objs rest
  end.

(** [_get_goodslits]: the argument if it is given, else the array the
    object has, else a new array with no slit masked. *)
Definition _get_goodslits (maskslits : value) : M value :=
  (if negb (is_None maskslits) then setattr "maskslits" maskslits
   else
     cur <- getattr "maskslits" ;;
     if is_None cur then
       tsl <- getattr "tslits_dict" ;;
       match tsl with
       | VSlits t =>
           r <- alloc (replicate (nslits t) false) ;;
           setattr "maskslits" (VBoolArr r)
       | _ => raise not_subscriptable
       end
     else ret tt) ;;;
  getattr "maskslits".

(** [build_crmask]: L.A.Cosmic on an image and the variance of its
    inverse variance. *)
Definition build_crmask (stack ivar : image float) : image bool :=
  lacosmic E stack (fun p => calc_ivar E (ivar p)).

(** [_build_mask(sciimg, sciivar, crmask, mincounts=True, slitmask=None)] *)
Definition _build_mask (sciimg sciivar crmask : value) (mincounts_arg : Z)
           (slitmask : value) : M (image Z) :=
  let mask : image Z := fun _ => 0 in
  (* Bad pixel mask *)
  b <- getattr "bpm" ;;
  bpm <- int_img (none_has_no "astype") b ;;
  sci <- float_img (IndexError "too many indices for array") sciimg ;;
  let mask := turn_on_where mask (fun p => negb (bpm p =? 0)) BPM in
  (* Cosmic rays *)
  cr <- bool_img (none_has_no "astype") crmask ;;
  let mask := turn_on_where mask cr CR in
  (* Saturated pixels *)
  let mask := turn_on_where mask (fun p => F.geb (sci p) (saturation E)) SATURATION in
  (* Minimum counts *)
  let mask :=
    if truthy mincounts_arg
    then turn_on_where mask (fun p => F.leb (sci p) (mincounts E)) MINCOUNTS
    else mask in
  (* Pixels excluded from any slit *)
  mask <- (if negb (is_None slitmask) then
             sm <- getattr "slitmask" ;;
             ret (match sm with
                  | VIntImg s => turn_on_where mask (fun p => s p =? -1) OFFSLITS
                  | _ => mask
                  end)
           else ret mask) ;;
  (* Undefined counts *)
  let mask := turn_on_where mask (fun p => negb (F.isfinite (sci p))) IS_NAN in
  (* Bad inverse variance values *)
  ivar <- float_img (bad_operand ">") sciivar ;;
  let mask := turn_on_where mask (fun p => negb (F.gtb (ivar p) F.zero)) IVAR0 in
  (* Undefined inverse variances *)
  let mask := turn_on_where mask (fun p => negb (F.isfinite (ivar p))) IVAR_NAN in
  ret mask.

(** One frame of [read_stack]. *)
Definition read_one (bias pixel_flat bpm illum_flat : value) (cosmics : bool)
           (file : string) : M Frame :=
  read_frame file ;;;
  let sciimg := process E file bias pixel_flat illum_flat bpm in
  let rawvarframe := build_rawvarframe E file in
  let sciivar := fun p => calc_ivar E (rawvarframe p) in
  let crmask := if cosmics then build_crmask sciimg sciivar else fun _ => false in
  let rn2img := build_rn2img E file in
  mask <- _build_mask (VFloatImg sciimg) (VFloatImg sciivar) (VBoolImg crmask) 1 VNone ;;
  ret (mkFrame sciimg sciivar rn2img crmask mask).

(** [read_stack]: the stacks are allocated at the first file, so that
    the [return] of an empty list of files finds them unbound. *)
Definition read_stack (files : list string) (bias pixel_flat bpm illum_flat : value)
           (cosmics : bool) : M (list Frame) :=
  frames <- mapM (read_one bias pixel_flat bpm illum_flat cosmics) files ;;
  match frames with
  | [] => raise (UnboundLocalError "sciimg_stack")
  | _ => ret frames
  end.

(** [outmask_stack] after the [if sigma_clip] of [proc], when it is bound:
    the frames that are good at each pixel. *)
Definition proc_outmask_stack (nsci : nat) (sigma_clip : bool)
           (sigrej : option float) (maxiters : nat) (frames : list Frame)
  : option (list (image bool)) :=
  let sigrej := match sigrej with Some x => x | None => default_sigrej nsci end in
  if sigma_clip then
    (* sigma clip if we have enough images *)
    if (2 <? nsci)%nat then
      Some (map (fun m => fun p => negb (m p))
                (sigclip_mask E (map f_sciimg frames)
                   (map (fun f => fun p => 0 <? f_mask f p) frames)
                   sigrej maxiters))
    else None
  else Some (map (fun f => fun p => f_mask f p =? 0) frames).

(** The weighted combination of the frames: [crmask], [sciimg],
    [sciivar] and [rn2img], in the order of their assignment. *)
Definition stack_frames (weights : list float) (outmask_stack : list (image bool))
           (frames : list Frame) (nfiles : nat) : Stacked :=
  let var_stack := map (fun f => fun p => calc_ivar E (f_sciivar f p)) frames in
  let ws := weights_stack weights outmask_stack in
  let varfinal := stack_var var_stack ws in
  mkStacked (stack_crmask (map f_crmask frames) nfiles)
            (stack_mean (map f_sciimg frames) ws)
            (fun p => calc_ivar E (varfinal p))
            (stack_var (map f_rn2img frames) ws).

(** [proc], up to the end of the stacking (the [if self.nsci > 1] and its
    [else]). *)
Definition proc_stack (bias pixel_flat bpm illum_flat : value) (sigma_clip : bool)
           (sigrej : option float) (maxiters : nat) : M ProcResult :=
  setattr "bpm" bpm ;;;
  setattr "bias" bias ;;;
  setattr "pixel_flat" pixel_flat ;;;
  setattr "illum_flat" illum_flat ;;;
  s <- get_self ;;
  (if ir_redux s && sigma_clip
   then raise (PypeItError
     "You cannot sigma clip with difference imaging as this will reject objects")
   else ret tt) ;;;
  let all_files := if ir_redux s then file_list s ++ bg_file_list s else file_list s in
  let cosmics := negb (ir_redux s) in
  let weights := proc_weights (nsci s) (nbg s) (ir_redux s) in
  frames <- read_stack all_files bias pixel_flat bpm illum_flat cosmics ;;
  let nfiles := length all_files in
  if (1 <? nsci s)%nat then
    match proc_outmask_stack (nsci s) sigma_clip sigrej maxiters frames with
    | None => raise (UnboundLocalError "outmask_stack")
    | Some outmask_stack =>
        if negb (length weights =? length outmask_stack)%nat
        then raise (ValueError "operands could not be broadcast together")
        else
          let st := stack_frames weights outmask_stack frames nfiles in
          setattr "crmask" (VBoolImg (s_crmask st)) ;;;
          setattr "sciimg" (VFloatImg (s_sciimg st)) ;;;
          setattr "sciivar" (VFloatImg (s_sciivar st)) ;;;
          setattr "rn2img" (VFloatImg (s_rn2img st)) ;;;
          mask <- _build_mask (VFloatImg (s_sciimg st)) (VFloatImg (s_sciivar st))
                              (VBoolImg (s_crmask st)) (py_invert (ir_redux s)) VNone ;;
          setattr "mask" (VIntImg mask) ;;;
          ret (mkProcResult (s_sciimg st) (s_sciivar st) (s_rn2img st) mask (s_crmask st))
    end
  else
    match frames with
    | [] => raise (IndexError "index 0 is out of bounds")
    | f :: _ =>
        setattr "mask" (VIntImg (f_mask f)) ;;;
        setattr "crmask" (VBoolImg (f_crmask f)) ;;;
        setattr "sciimg" (VFloatImg (f_sciimg f)) ;;;
        setattr "sciivar" (VFloatImg (f_sciivar f)) ;;;
        setattr "rn2img" (VFloatImg (f_rn2img f)) ;;;
        ret (mkProcResult (f_sciimg f) (f_sciivar f) (f_rn2img f) (f_mask f) (f_crmask f))
    end.

(** [proc]: the stacking, then, in a difference-imaging reduction, the
    cosmic rays of the difference. *)
Definition proc (bias pixel_flat bpm illum_flat : value) (sigma_clip : bool)
           (sigrej : option float) (maxiters : nat) : M ProcResult :=
  r <- proc_stack bias pixel_flat bpm illum_flat sigma_clip sigrej maxiters ;;
  s <- get_self ;;
  if ir_redux s then
    let crmask := build_crmask (r_sciimg r) (r_sciivar r) in
    setattr "crmask" (VBoolImg crmask) ;;;
    ret (mkProcResult (r_sciimg r) (r_sciivar r) (r_rn2img r) (r_mask r) crmask)
  else ret r.

(** [(self.crmask == False)]: all false when [crmask] is [None]. *)
Definition crmask_is_False (crmask : value) : image bool :=
  match crmask with
  | VBoolImg c => fun p => negb (c p)
  | _ => fun _ => false
  end.

(** [self.slitmask = self.spectrograph.slitmask(tslits_dict, ...) if
    self.slitmask is None else self.slitmask] *)
Definition assign_slitmask (tslits_dict : value) : M (image Z) :=
  sm <- getattr "slitmask" ;;
  (if is_None sm then
     match tslits_dict with
     | VSlits t => setattr "slitmask" (VIntImg (spectrograph_slitmask E t))
     | _ => raise not_subscriptable
     end
   else ret tt) ;;;
  sm <- getattr "slitmask" ;;
  int_img (bad_operand "==") sm.

(** [self.skymask if ((self.skymask is not None) & use_skymask) else
    np.ones_like(self.sciimg, dtype=bool)] *)
Definition skymask_used (sk : value) (use_skymask : bool) : image bool :=
  match sk with
  | VBoolImg a => if use_skymask then a else fun _ => true
  | _ => fun _ => true
  end.

(** The array behind [maskslits], for [np.where(~self.maskslits)]. *)
Definition deref (ms : value) : M (nat * list bool) :=
  match ms with
  | VBoolArr r => a <- load r ;; ret (r, a)
  | _ => raise (bad_operand "~")
  end.

(** One slit of the loop of [global_skysub], on the sky image and the
    array of masked slits. *)
Definition global_skysub_slit (sciimg sciivar tilts : image float) (t : TSlits)
           (mask slitmask : image Z) (crmask : value) (skymask : image bool)
           (pos_mask : Z) (st : image float * list bool) (slit : nat)
  : image float * list bool :=
  let thismask := fun p => slitmask p =? Z.of_nat slit in
  let inmask := fun p =>
    (mask p =? 0) && crmask_is_False crmask p && thismask p && skymask p in
  let fit := skysub_global_skysub E sciimg sciivar tilts thismask
               (fun row => lcen t row slit) (fun row => rcen t row slit)
               inmask pos_mask in
  let global_sky := fun p => if thismask p then fit p else fst st p in
  (* Mask if something went wrong *)
  if F.eqb (F.sum (map global_sky (filter (fun p => thismask p = true)
                                          (frame_pixels E)))) F.zero
  then (global_sky, <[slit := true]> (snd st))
  else (global_sky, snd st).

(** [global_skysub(tslits_dict, tilts, use_skymask=True,
    update_crmask=True, maskslits=None)] *)
Definition global_skysub (tslits_dict tilts : value) (use_skymask update_crmask : bool)
           (maskslits : value) : M (image float) :=
  setattr "tslits_dict" tslits_dict ;;;
  setattr "tilts" tilts ;;;
  ms <- _get_goodslits maskslits ;;
  ra <- deref ms ;;
  let gdslits := where_not (snd ra) in
  (* Build and assign the slitmask and input mask if they do not already exist *)
  slitmask <- assign_slitmask tslits_dict ;;
  m <- getattr "mask" ;;
  (if is_None m then
     sci <- getattr "sciimg" ;;
     ivar <- getattr "sciivar" ;;
     cr <- getattr "crmask" ;;
     mask <- _build_mask sci ivar cr 1 (VIntImg slitmask) ;;
     setattr "mask" (VIntImg mask)
   else ret tt) ;;;
  (* Prep *)
  sci <- getattr "sciimg" ;;
  sciimg <- float_img (IndexError "too many indices for array") sci ;;
  sk <- getattr "skymask" ;;
  let skymask := skymask_used sk use_skymask in
  m <- getattr "mask" ;;
  mask <- int_img (bad_operand "&") m ;;
  crmask <- getattr "crmask" ;;
  ivar <- getattr "sciivar" ;;
  sciivar <- float_img (bad_operand "*") ivar ;;
  tlt <- float_img (bad_operand "*") tilts ;;
  t <- match tslits_dict with VSlits t => ret t | _ => raise not_subscriptable end ;;
  s <- get_self ;;
  (* Loop on slits *)
  let st := fold_left
              (global_skysub_slit sciimg sciivar tlt t mask slitmask crmask skymask
                                  (py_invert (ir_redux s)))
              gdslits (fun _ => F.zero, snd ra) in
  setattr "global_sky" (VFloatImg (fst st)) ;;;
  store (fst ra) (snd st) ;;;
  (if update_crmask then
     (* Update the crmask by running LA cosmics again *)
     let crmask := build_crmask (fun p => F.sub (sciimg p) (fst st p)) sciivar in
     setattr "crmask" (VBoolImg crmask) ;;;
     (* Rebuild the mask with this new crmask *)
     mask <- _build_mask (VFloatImg sciimg) (VFloatImg sciivar) (VBoolImg crmask) 1
                         (VIntImg slitmask) ;;
     setattr "mask" (VIntImg mask)
   else ret tt) ;;;
  append_step "global_skysub" ;;;
  ret (fst st).

(** The images that [local_skysub_extract] fills slit by slit. *)
Record Models : Type := mkModels {
  skymodel : image float;
  objmodel : image float;
  ivarmodel : image float;
  extractmask : image bool
}.

(** One slit of the loop of [local_skysub_extract]. *)
Definition local_skysub_extract_slit (sciimg sciivar tilts waveimg global_sky
           rn2img : image float) (t : TSlits) (mask slitmask : image Z)
           (crmask : value) (sobjs : list SpecObj) (md : Models) (slit : nat)
  : Models :=
  let thisobj := filter (fun o => slitid o = slit) sobjs in
  if negb (bool_decide (thisobj = [])) then
    let thismask := fun p => slitmask p =? Z.of_nat slit in
    let inmask := fun p => (mask p =? 0) && crmask_is_False crmask p && thismask p in
    let '(sky, obj, ivar, ext) :=
      skysub_local_skysub_extract E sciimg sciivar tilts waveimg global_sky rn2img
        thismask (fun row => lcen t row slit) (fun row => rcen t row slit)
        thisobj inmask in
    mkModels (fun p => if thismask p then sky p else skymodel md p)
             (fun p => if thismask p then obj p else objmodel md p)
             (fun p => if thismask p then ivar p else ivarmodel md p)
             (fun p => if thismask p then ext p else extractmask md p)
  else md.

(** What [local_skysub_extract] returns. *)
Record Extraction : Type := mkExtraction {
  x_skymodel : image float;
  x_objmodel : image float;
  x_ivarmodel : image float;
  x_outmask : image Z;
  x_sobjs : list SpecObj
}.

(** [self.outmask[iextract] += np.uint64(2**8)], in the 16 bits of the
    mask. *)
Definition add_extract_bit (outmask : image Z) (iextract : image bool) : image Z :=
  fun p => if iextract p then (outmask p + 2 ^ 8) mod 2 ^ width else outmask p.

(** [local_skysub_extract(sobjs, waveimg, maskslits=None)] *)
Definition local_skysub_extract (sobjs : list SpecObj) (waveimg maskslits : value)
  : M Extraction :=
  setattr "waveimg" waveimg ;;;
  (* get the good slits and assign self.maskslits *)
  ms <- _get_goodslits maskslits ;;
  ra <- deref ms ;;
  let gdslits := where_not (snd ra) in
  tsl <- getattr "tslits_dict" ;;
  slitmask <- assign_slitmask tsl ;;
  ok <- _chk_objs ["sciimg"; "sciivar"; "rn2img"; "global_sky";
                   "tilts"; "waveimg"; "tslits_dict"] ;;
  (if negb ok then
     raise (PypeItError
       "All quantities necessary to run local_skysub_extract() have not been set.")
   else ret tt) ;;;
  (* Allocate the images that are needed *)
  m <- getattr "mask" ;;
  mask <- int_img (bad_operand "&") m ;;
  sci <- getattr "sciimg" ;;
  sciimg <- float_img (bad_operand "*") sci ;;
  gs <- getattr "global_sky" ;;
  global_sky <- float_img (bad_operand "*") gs ;;
  iv <- getattr "sciivar" ;;
  sciivar <- float_img (bad_operand "*") iv ;;
  let md0 := mkModels global_sky (fun _ => F.zero) sciivar (fun p => mask p =? 0) in
  setattr "sobjs" (VObjs sobjs) ;;;
  tl <- getattr "tilts" ;;
  tilts <- float_img (bad_operand "*") tl ;;
  wv <- float_img (bad_operand "*") waveimg ;;
  rn <- getattr "rn2img" ;;
  rn2img <- float_img (bad_operand "*") rn ;;
  t <- match tsl with VSlits t => ret t | _ => raise not_subscriptable end ;;
  crmask <- getattr "crmask" ;;
  (* Loop on slits *)
  let md := fold_left
              (local_skysub_extract_slit sciimg sciivar tilts wv global_sky rn2img
                                         t mask slitmask crmask sobjs)
              gdslits md0 in
  (* Set the bit for pixels which were masked by the extraction. *)
  let iextract := fun p => (mask p =? 0) && negb (extractmask md p) in
  let outmask := add_extract_bit mask iextract in
  setattr "outmask" (VIntImg outmask) ;;;
  setattr "extractmask" (VBoolImg (extractmask md)) ;;;
  setattr "objmodel" (VFloatImg (objmodel md)) ;;;
  setattr "skymodel" (VFloatImg (skymodel md)) ;;;
  setattr "ivarmodel" (VFloatImg (ivarmodel md)) ;;;
  append_step "local_skysub_extract" ;;;
  ret (mkExtraction (skymodel md) (objmodel md) (ivarmodel md) outmask sobjs).

End Methods.


(** ** Object finding, and the other methods *)

(** The collaborators of the object finding: [extract.objfind], which
    gets the image, the pixels of the slit, its edges, the pixels it may use
    and the slit number (in [specobj_dict]) and gives the objects of the
    slit with the sky mask and the object mask on the pixels of the slit;
    and [extract.ech_objfind], which gets the sky-subtracted image, the
    inverse variance, the slit map, the traces and the pixels it may use. *)
Record Finders : Type := mkFinders {
  extract_objfind :
    image float -> image bool -> (nat -> float) -> (nat -> float) -> image bool ->
    nat -> list SpecObj * image bool * image bool;
  extract_ech_objfind :
    image float -> image float -> image Z -> TSlits -> image bool -> list SpecObj
}.

(** The names that the class gives to every object: its class attribute
    and its methods. *)
Definition class_attributes : list string :=
  ["frametype"; "__init__"; "_chk_objs"; "find_objects"; "global_skysub";
   "get_init_sky"; "get_ech_objects"; "local_skysub_extract"; "_get_goodslits";
   "read_stack"; "proc"; "build_crmask"; "_build_mask"; "run_the_steps"; "show";
   "__repr__"].

(** [getattr(self, 'get_{:s}'.format(step))()]: no value that the object
    holds can be called, the two methods of the class whose names start
    with [get_] need arguments, and no other name is found. *)
Definition run_step (step : string) : M unit :=
  let name := ("get_" ++ step)%string in
  fun w =>
    match attrs (self w) !! name with
    | Some _ => (Raise (TypeError "object is not callable"), w)
    | None =>
        if bool_decide (name ∈ class_attributes) then
          (Raise (TypeError (name ++ "() missing required positional arguments")%string), w)
        else (Raise (AttributeError name), w)
    end.

Fixpoint for_each {A} (f : A -> M unit) (l : list A) : M unit :=
  match l with
  | [] => ret tt
  | x :: l' => f x ;;; for_each f l'
  end.

(** [run_the_steps] *)
Definition run_the_steps : M unit :=
  st <- getattr "steps" ;;
  match st with
  | VStrs l => for_each run_step l
  | _ => raise (TypeError "object is not iterable")
  end.

(** [txt[:-2]] *)
Definition drop_last_two (txt : string) : string :=
  substring 0 (String.length txt - 2) txt.

(** [__repr__]: the class name, the number of science frames and, when
    there are any, the steps. *)
Definition __repr__ : M string :=
  s <- get_self ;;
  let txt := ("<ScienceImage: nimg=" ++ pretty (nsci s))%string in
  st <- getattr "steps" ;;
  match st with
  | VStrs steps =>
      let txt :=
        if (0 <? length steps)%nat then
          let txt := (txt ++ " steps: [")%string in
          let txt := fold_left (fun acc step => (acc ++ step ++ ", ")%string) steps txt in
          (drop_last_two txt ++ "]")%string
        else txt in
      ret (txt ++ ">")%string
  | _ => raise (TypeError "object has no len()")
  end.

Section Finding.

Variable E : Collab.
Variable Fd : Finders.

(** One slit of the loop of [find_objects], on the objects found so far
    and the two masks. *)
Definition find_objects_slit (img : image float) (t : TSlits)
           (mask slitmask : image Z) (crmask : value)
           (st : list SpecObj * image bool * image bool) (slit : nat)
  : list SpecObj * image bool * image bool :=
  let '(sobjs, skymask, objmask) := st in
  let thismask := fun p => slitmask p =? Z.of_nat slit in
  let inmask := fun p => (mask p =? 0) && crmask_is_False crmask p && thismask p in
  let '(sobjs_slit, sky, obj) :=
    extract_objfind Fd img thismask (fun row => lcen t row slit)
                    (fun row => rcen t row slit) inmask slit in
  (sobjs ++ sobjs_slit,
   fun p => if thismask p then sky p else skymask p,
   fun p => if thismask p then obj p else objmask p).

(** [find_objects(tslits_dict, maskslits=None, skysub=True)]; the number of
    objects that it also assigns to [self.nobj] is the length of
    [self.sobjs_obj]. *)
Definition find_objects (tslits_dict maskslits : value) (skysub : bool)
  : M (list SpecObj * nat) :=
  setattr "tslits_dict" tslits_dict ;;;
  ms <- _get_goodslits maskslits ;;
  ra <- deref ms ;;
  let gdslits := where_not (snd ra) in
  (* Build and assign the slitmask and input mask if they do not already exist *)
  slitmask <- assign_slitmask E tslits_dict ;;
  m <- getattr "mask" ;;
  (if is_None m then
     sci <- getattr "sciimg" ;;
     ivar <- getattr "sciivar" ;;
     cr <- getattr "crmask" ;;
     mask <- _build_mask E sci ivar cr 1 (VIntImg slitmask) ;;
     setattr "mask" (VIntImg mask)
   else ret tt) ;;;
  (* create the ouptut images skymask and objmask *)
  setattr "skymask" (VBoolImg (fun _ => false)) ;;;
  setattr "objmask" (VBoolImg (fun _ => false)) ;;;
  (* If we are object finding on the sky subtracted image, then check that
     the global sky exists *)
  sci <- getattr "sciimg" ;;
  img <- (if skysub then
              gs <- getattr "global_sky" ;;
              if is_None gs then
                raise (PypeItError
                  "Object finding on sky subtracted image requested, but global_sky is not set. Run global_skysub() first")
              else
                sciimg <- float_img (bad_operand "-") sci ;;
                global_sky <- float_img (bad_operand "-") gs ;;
                ret (fun p => F.sub (sciimg p) (global_sky p))
            else float_img (bad_operand "*") sci) ;;
  m <- getattr "mask" ;;
  mask <- int_img (bad_operand "&") m ;;
  crmask <- getattr "crmask" ;;
  t <- match tslits_dict with VSlits t => ret t | _ => raise not_subscriptable end ;;
  (* Loop on slits *)
  let st := fold_left (find_objects_slit img t mask slitmask crmask) gdslits
                      ([], fun _ => false, fun _ => false) in
  setattr "skymask" (VBoolImg (snd (fst st))) ;;;
  setattr "objmask" (VBoolImg (snd st)) ;;;
  (* Finish *)
  setattr "sobjs_obj" (VObjs (fst (fst st))) ;;;
  append_step "find_objects" ;;;
  ret (fst (fst st), length (fst (fst st))).

(** [get_init_sky(tslits_dict, tilts, maskslits=None, update_crmask=True)] *)
Definition get_init_sky (tslits_dict tilts maskslits : value) (update_crmask : bool)
  : M (image float) :=
  found <- find_objects tslits_dict maskslits false ;;
  setattr "sobjs_obj_init" (VObjs (fst found)) ;;;
  (* Global sky subtraction, first pass. Uses skymask from object finding *)
  gs <- global_skysub E tslits_dict tilts true update_crmask maskslits ;;
  setattr "global_sky" (VFloatImg gs) ;;;
  ret gs.

(** [get_ech_objects(tslits_dict)]; the number of objects is the length
    of [self.sobjs_ech]. *)
Definition get_ech_objects (tslits_dict : value) : M (list SpecObj * nat) :=
  (* Did they run process? *)
  ok <- _chk_objs ["sciimg"; "sciivar"; "global_sky"] ;;
  (if negb ok then
     raise (PypeItError "All quantities necessary to run ech_objfind() have not been set.")
   else ret tt) ;;;
  (* Build and assign the slitmask and input mask if they do not already exist *)
  slitmask <- assign_slitmask E tslits_dict ;;
  m <- getattr "mask" ;;
  (if is_None m then
     sci <- getattr "sciimg" ;;
     ivar <- getattr "sciivar" ;;
     cr <- getattr "crmask" ;;
     mask <- _build_mask E sci ivar cr 1 (VIntImg slitmask) ;;
     setattr "mask" (VIntImg mask)
   else ret tt) ;;;
  m <- getattr "mask" ;;
  mask <- int_img (bad_operand "&") m ;;
  crmask <- getattr "crmask" ;;
  let inmask := fun p => (mask p =? 0) && crmask_is_False crmask p in
  sci <- getattr "sciimg" ;;
  sciimg <- float_img (bad_operand "-") sci ;;
  gs <- getattr "global_sky" ;;
  global_sky <- float_img (bad_operand "-") gs ;;
  iv <- getattr "sciivar" ;;
  sciivar <- float_img (bad_operand "*") iv ;;
  t <- match tslits_dict with VSlits t => ret t | _ => raise not_subscriptable end ;;
  let sobjs_ech :=
    extract_ech_objfind Fd (fun p => F.sub (sciimg p) (global_sky p)) sciivar
                        slitmask t inmask in
  setattr "sobjs_ech" (VObjs sobjs_ech) ;;;
  append_step "get_ech_objects" ;;;
  ret (sobjs_ech, length sobjs_ech).

End Finding.
(** * Specification *)

(** ** Outcomes of a method call *)

(** The call [m] in the world [w] returns, with a result and a final world
    that satisfy [Q]. *)
Definition returns {A} (m : M A) (w : world) (Q : A -> world -> Prop) : Prop :=
  exists a w', m w = (Ok a, w') /\ Q a w'.

(** The call [m] in the world [w] raises [e]. *)
Definition raises {A} (m : M A) (w : world) (e : exn) : Prop :=
  fst (m w) = Raise e.

(** The attribute [name] of the object in [w]. *)
Definition attr (w : world) (name : string) : option value :=
  attrs (self w) !! name.

(** The instantiation attributes of an object are those [__init__] derives
    from its two lists of files. *)
Definition constructed (s : ScienceImage) : Prop :=
  nsci s = length (file_list s) /\
  nbg s = length (bg_file_list s) /\
  ir_redux s = (0 <? length (bg_file_list s))%nat.

(** ** The composite mask, as a function of what [_build_mask] reads *)

Definition mask_bits (E : Collab) (bpm : image Z) (sci ivar : image float)
           (cr : image bool) (mincounts_arg : Z) (offslits : option (image Z))
  : image Z :=
  let mask := turn_on_where (fun _ => 0) (fun p => negb (bpm p =? 0)) BPM in
  let mask := turn_on_where mask cr CR in
  let mask := turn_on_where mask (fun p => F.geb (sci p) (saturation E)) SATURATION in
  let mask :=
    if truthy mincounts_arg
    then turn_on_where mask (fun p => F.leb (sci p) (mincounts E)) MINCOUNTS
    else mask in
  let mask := match offslits with
              | Some s => turn_on_where mask (fun p => s p =? -1) OFFSLITS
              | None => mask
              end in
  let mask := turn_on_where mask (fun p => negb (F.isfinite (sci p))) IS_NAN in
  let mask := turn_on_where mask (fun p => negb (F.gtb (ivar p) F.zero)) IVAR0 in
  turn_on_where mask (fun p => negb (F.isfinite (ivar p))) IVAR_NAN.

(** The slit map that the off-slit test of [_build_mask] reads: the
    attribute of the object, when the argument is not [None]. *)
Definition offslits_of (w : world) (slitmask : value) : option (image Z) :=
  if is_None slitmask then None
  else match attr w "slitmask" with
       | Some (VIntImg s) => Some s
       | _ => None
       end.

(** The frame that [read_stack] makes of a file, for the bad-pixel mask
    [b] of the object. *)
Definition frame_of (E : Collab) (bias pixel_flat bpm illum_flat : value)
           (cosmics : bool) (b : image Z) (file : string) : Frame :=
  let sciimg := process E file bias pixel_flat illum_flat bpm in
  let sciivar := fun p => calc_ivar E (build_rawvarframe E file p) in
  let crmask := if cosmics then build_crmask E sciimg sciivar else fun _ => false in
  mkFrame sciimg sciivar (build_rn2img E file) crmask
          (mask_bits E b sciimg sciivar crmask 1 None).

(** The world after the raw frames [files] have been read. *)
Definition after_reading (files : list string) (w : world) : world :=
  mkWorld (self w) (arrays w) (warnings w) (frames_read w ++ files).

(** The files that [proc] reads, and the frames it stacks. *)
Definition all_files (s : ScienceImage) : list string :=
  if ir_redux s then file_list s ++ bg_file_list s else file_list s.

(** The masks of the frames that [proc] combines when it does not
    sigma-clip. *)
Definition unmasked (frames : list Frame) : list (image bool) :=
  map (fun f => fun p => f_mask f p =? 0) frames.

(** ** A small instrument, for the examples

    A detector of two rows and three columns, one slit per column.  A raw
    frame has the counts its file name stands for: flat, but for a frame
    with one saturated pixel and a frame with no counts on the middle slit.
    The toy cosmic-ray detector flags what is at or above 4000 counts; the
    toy sky fit returns the image on the pixels it may fit and zero
    elsewhere; the toy extraction rejects every pixel of a slit. *)

Definition level (file : string) (p : pixel) : Z :=
  if String.eqb file "on" then 5
  else if String.eqb file "off" then 2
  else if String.eqb file "dark" then 0
  else if String.eqb file "bright" then 3000
  else if String.eqb file "hit" then 5000
  else if String.eqb file "saturated" then 70000
  else if String.eqb file "spot" then
    (if (fst p =? 0)%nat && (snd p =? 0)%nat then 70000 else 10)
  else if String.eqb file "stripe" then
    (if (snd p =? 1)%nat then 0 else 10)
  else 1.

Definition toy_calc_ivar (x : float) : float :=
  F.div (F.of_bool (F.gtb x F.zero))
        (F.add x (F.of_bool (F.leb x F.zero))).

Definition toy : Collab :=
  {| saturation := F.of_Z 65535;
     mincounts := F.of_Z (-1000);
     frame_pixels := [(0, 0); (0, 1); (0, 2); (1, 0); (1, 1); (1, 2)]%nat;
     process := fun file _ _ _ _ => fun p => F.of_Z (level file p);
     build_rawvarframe := fun _ => fun _ => F.one;
     build_rn2img := fun _ => fun _ => F.one;
     calc_ivar := toy_calc_ivar;
     lacosmic := fun stack _ => fun p => F.geb (stack p) (F.of_Z 4000);
     sigclip_mask := fun _ masked _ _ => masked;
     spectrograph_slitmask := fun t => fun p =>
       if (snd p <? nslits t)%nat then Z.of_nat (snd p) else -1;
     skysub_global_skysub := fun sci _ _ _ _ _ inmask _ => fun p =>
       if inmask p then sci p else F.zero;
     skysub_local_skysub_extract := fun _ ivar _ _ sky _ _ _ _ _ _ =>
       (sky, fun _ => F.one, ivar, fun _ => false) |}.

Definition no_bpm : value := VIntImg (fun _ => 0).

(** Equality of two floats, decided: for the evaluation of examples. *)
Definition same (x y : float) : bool :=
  match x, y with
  | F.Fin a, F.Fin b => F.Qc_eqb a b
  | F.PInf, F.PInf | F.NInf, F.NInf | F.NaN, F.NaN => true
  | _, _ => false
  end.

(** The result of a call, when it returns. *)
Definition result_of {A} (m : M A) (w : world) : option A :=
  match fst (m w) with Ok a => Some a | Raise _ => None end.

(** The world after [self.name = v]. *)
Definition with_attr (name : string) (v : value) (w : world) : world :=
  mkWorld (set_attrs (<[name := v]> (attrs (self w))) (self w))
          (arrays w) (warnings w) (frames_read w).

(** The frames that [proc] reads, when the bad-pixel mask is [b]. *)
Definition proc_frames (E : Collab) (bias pixel_flat illum_flat : value)
           (b : image Z) (s : ScienceImage) : list Frame :=
  map (frame_of E bias pixel_flat (VIntImg b) illum_flat (negb (ir_redux s)) b)
      (all_files s).

(** The result of the stacking of [proc], for the frames [frames] and the
    good-pixel masks [o]. *)
Definition stacked (E : Collab) (s : ScienceImage) (o : list (image bool))
           (frames : list Frame) : Stacked :=
  stack_frames E (proc_weights (nsci s) (nbg s) (ir_redux s)) o frames
               (length (all_files s)).

Definition stacked_result (E : Collab) (b : image Z) (s : ScienceImage)
           (st : Stacked) : ProcResult :=
  mkProcResult (s_sciimg st) (s_sciivar st) (s_rn2img st)
    (mask_bits E b (s_sciimg st) (s_sciivar st) (s_crmask st)
               (py_invert (ir_redux s)) None)
    (s_crmask st).

Definition frame_result (f : Frame) : ProcResult :=
  mkProcResult (f_sciimg f) (f_sciivar f) (f_rn2img f) (f_mask f) (f_crmask f).

(** The call returns a result on which the test [P] succeeds: for the
    evaluation of examples. *)
Definition holds {A} (m : M A) (w : world) (P : A -> world -> bool) : bool :=
  match m w with
  | (Ok a, w') => P a w'
  | (Raise _, _) => false
  end.

#[global] Instance flag_eq_dec : EqDecision flag.
Proof. solve_decision. Defined.

(** A finite float. *)
Definition finite (x : float) : Prop := F.isfinite x = true.

(** The world after a new array [a] has been allocated. *)
Definition with_array (a : list bool) (w : world) : world :=
  mkWorld (self w) (arrays w ++ [a]) (warnings w) (frames_read w).

(** The world after the array at [r] has been replaced by [a]. *)
Definition with_stored (r : nat) (a : list bool) (w : world) : world :=
  mkWorld (self w) (<[r := a]> (arrays w)) (warnings w) (frames_read w).

(** How a method learns the masked slits: from its argument, from the
    array the object holds, or, when it holds none, from a new array with
    no slit masked.  [slits_given w maskslits r a w'] gives the reference
    [r], the array [a] behind it, and the world [w'] after
    [_get_goodslits]. *)
Inductive slits_given (w : world) : value -> nat -> list bool -> world -> Prop :=
| slits_argument r a :
    arrays w !! r = Some a ->
    slits_given w (VBoolArr r) r a (with_attr "maskslits" (VBoolArr r) w)
| slits_previous r a :
    attr w "maskslits" = Some (VBoolArr r) ->
    arrays w !! r = Some a ->
    slits_given w VNone r a w
| slits_new t :
    attr w "maskslits" = Some VNone ->
    attr w "tslits_dict" = Some (VSlits t) ->
    slits_given w VNone (length (arrays w)) (replicate (nslits t) false)
      (with_attr "maskslits" (VBoolArr (length (arrays w)))
                 (with_array (replicate (nslits t) false) w)).

(** The pixels of a slit, among those of the frame. *)
Definition slit_pixels (E : Collab) (slitmask : image Z) (slit : nat) : list pixel :=
  filter (fun p => (slitmask p =? Z.of_nat slit) = true) (frame_pixels E).

(** The sky that [skysub.global_skysub] fits to a slit, for the images,
    traces and masks that [global_skysub] hands to it. *)
Definition slit_fit (E : Collab) (sciimg sciivar tilts : image float) (t : TSlits)
           (mask slitmask : image Z) (crmask : value) (skymask : image bool)
           (pos_mask : Z) (slit : nat) : image float :=
  let thismask := fun p => slitmask p =? Z.of_nat slit in
  skysub_global_skysub E sciimg sciivar tilts thismask
    (fun row => lcen t row slit) (fun row => rcen t row slit)
    (fun p => (mask p =? 0) && crmask_is_False crmask p && thismask p && skymask p)
    pos_mask.

(** [np.sum(sky[thismask]) == 0.], for the pixels of a slit. *)
Definition sky_sum_zero (E : Collab) (slitmask : image Z) (sky : image float)
           (slit : nat) : bool :=
  F.eqb (F.sum (map sky (slit_pixels E slitmask slit))) F.zero.

(** The slit map that a method uses: the one the object holds, or the one
    of the spectrograph for the traces when it holds none. *)
Definition slitmask_used (E : Collab) (sm : value) (t : TSlits) : option (image Z) :=
  match sm with
  | VNone => Some (spectrograph_slitmask E t)
  | VIntImg s => Some s
  | _ => None
  end.

(** The world after [assign_slitmask], when the object held [sm]. *)
Definition slitmask_world (sm : value) (slitmask : image Z) (w : world) : world :=
  if is_None sm then with_attr "slitmask" (VIntImg slitmask) w else w.

(** The object after [proc]: the combined image, its inverse variance, the
    read noise, the composite mask, the cosmic rays and the bad pixels are
    there, with whatever the object holds as slit map, sky mask and steps. *)
Record combined (w : world) (sci ivar rn2 : image float) (m : image Z)
       (cr : image bool) (b : image Z) (sm sk : value) : Prop := {
  combined_sciimg : attr w "sciimg" = Some (VFloatImg sci);
  combined_sciivar : attr w "sciivar" = Some (VFloatImg ivar);
  combined_rn2img : attr w "rn2img" = Some (VFloatImg rn2);
  combined_mask : attr w "mask" = Some (VIntImg m);
  combined_crmask : attr w "crmask" = Some (VBoolImg cr);
  combined_bpm : attr w "bpm" = Some (VIntImg b);
  combined_slitmask : attr w "slitmask" = Some sm;
  combined_skymask : attr w "skymask" = Some sk;
  combined_steps : exists l, attr w "steps" = Some (VStrs l)
}.

(** The sky image and the masked slits at the end of the loop of
    [global_skysub]. *)
Definition sky_loop_result (E : Collab) (sci ivar tilts : image float) (t : TSlits)
           (m slitmask : image Z) (cr : image bool) (skymask : image bool)
           (ir : bool) (a : list bool) : image float * list bool :=
  fold_left
    (global_skysub_slit E sci ivar tilts t m slitmask (VBoolImg cr) skymask
                        (py_invert ir))
    (where_not a) (fun _ => F.zero, a).

(** The object after [global_skysub], as [local_skysub_extract] needs it. *)
Record sky_subtracted (w : world) (sci ivar rn2 gs tilts : image float)
       (t : TSlits) (slitmask m : image Z) (cr : value) : Prop := {
  sky_sciimg : attr w "sciimg" = Some (VFloatImg sci);
  sky_sciivar : attr w "sciivar" = Some (VFloatImg ivar);
  sky_rn2img : attr w "rn2img" = Some (VFloatImg rn2);
  sky_global_sky : attr w "global_sky" = Some (VFloatImg gs);
  sky_tilts : attr w "tilts" = Some (VFloatImg tilts);
  sky_tslits_dict : attr w "tslits_dict" = Some (VSlits t);
  sky_slitmask : attr w "slitmask" = Some (VIntImg slitmask);
  sky_mask : attr w "mask" = Some (VIntImg m);
  sky_crmask : attr w "crmask" = Some cr;
  sky_steps : exists l, attr w "steps" = Some (VStrs l)
}.

(** The models at the end of the loop of [local_skysub_extract]. *)
Definition extract_loop_result (E : Collab) (sci ivar tilts wv gs rn2 : image float)
           (t : TSlits) (m slitmask : image Z) (cr : value) (sobjs : list SpecObj)
           (a : list bool) : Models :=
  fold_left
    (local_skysub_extract_slit E sci ivar tilts wv gs rn2 t m slitmask cr sobjs)
    (where_not a)
    (mkModels gs (fun _ => F.zero) ivar (fun p => m p =? 0)).

(** Three slits, and one object on the first of them. *)
Definition three_slits : TSlits :=
  mkTSlits 3 (fun _ slit => F.of_nat slit) (fun _ slit => F.of_nat (S slit)).

Definition one_object : list SpecObj := [mkSpecObj 0 1].

Definition flat_image : value := VFloatImg (fun _ => F.one).

(** [proc], then [global_skysub], then [local_skysub_extract], on the toy
    instrument. *)
Definition toy_reduction (sobjs : list SpecObj) : M (image float * Extraction) :=
  (proc toy VNone VNone no_bpm VNone false None 5 ;;;
   gs <- global_skysub toy (VSlits three_slits) flat_image true false VNone ;;
   x <- local_skysub_extract toy sobjs flat_image VNone ;;
   ret (gs, x))%meth.

(** A toy object after [global_skysub], set by hand: the mask has the
    saturation bit at the first pixel and is clear elsewhere. *)
Definition toy_subtracted : world :=
  with_attr "crmask" (VBoolImg (fun _ => false))
    (with_attr "mask" (VIntImg (fun p => if bool_decide (p = (0, 0)%nat) then 4 else 0))
       (with_attr "slitmask" (VIntImg (spectrograph_slitmask toy three_slits))
          (with_attr "tslits_dict" (VSlits three_slits)
             (with_attr "tilts" flat_image
                (with_attr "global_sky" flat_image
                   (with_attr "rn2img" flat_image
                      (with_attr "sciivar" flat_image
                         (with_attr "sciimg" flat_image (fresh ["on"] []))))))))).

(** A toy object after [proc], set by hand: a frame with no counts on the
    middle slit, no pixel masked. *)
Definition toy_combined : world :=
  with_attr "bpm" no_bpm
    (with_attr "crmask" (VBoolImg (fun _ => false))
       (with_attr "mask" (VIntImg (fun _ => 0))
          (with_attr "rn2img" flat_image
             (with_attr "sciivar" flat_image
                (with_attr "sciimg" (VFloatImg (fun p => F.of_Z (level "stripe" p)))
                           (fresh ["stripe"] [])))))).

(** ** More specification *)

(** The warning of [_chk_objs] for a missing attribute. *)
Definition needs_msg (obj : string) : string :=
  ("You need to generate " ++ obj ++ " prior to this step..")%string.

(** The world after [msgs.warn] has printed [msgs]. *)
Definition with_warnings (msgs : list string) (w : world) : world :=
  mkWorld (self w) (arrays w) (warnings w ++ msgs) (frames_read w).

(** An attribute that is there, and is not [None]. *)
Definition present (w : world) (name : string) : Prop :=
  exists v, attr w name = Some v /\ is_None v = false.

(** The steps that the methods of the class record. *)
Definition recorded_steps : list string :=
  ["find_objects"; "global_skysub"; "get_ech_objects"; "local_skysub_extract"].

(** * Proofs *)

Lemma bind_Ok {A B} (m : M A) (f : A -> M B) w a w' :
  m w = (Ok a, w') -> bind m f w = f a w'.
Proof. intros H. unfold bind. now rewrite H. Qed.

Lemma bind_Raise {A B} (m : M A) (f : A -> M B) w e w' :
  m w = (Raise e, w') -> bind m f w = (Raise e, w').
Proof. intros H. unfold bind. now rewrite H. Qed.

Lemma same_eq x y : same x y = true -> x = y.
Proof.
  destruct x as [a| | |], y as [b| | |]; simpl; try discriminate; auto.
  intros H. f_equal. apply Qc_is_canon. now apply Qeq_bool_iff.
Qed.

(** ** [_build_mask] *)

Lemma getattr_Some name v w :
  attr w name = Some v -> getattr name w = (Ok v, w).
Proof. unfold attr, getattr. now intros ->. Qed.

Lemma build_mask_returns E sci ivar cr mc slitarg w b :
  attr w "bpm" = Some (VIntImg b) ->
  (is_None slitarg = false -> is_Some (attr w "slitmask")) ->
  _build_mask E (VFloatImg sci) (VFloatImg ivar) (VBoolImg cr) mc slitarg w
  = (Ok (mask_bits E b sci ivar cr mc (offslits_of w slitarg)), w).
Proof.
  intros Hb Hs. unfold _build_mask, offslits_of.
  rewrite (bind_Ok _ _ _ _ _ (getattr_Some _ _ _ Hb)). simpl.
  unfold bind at 1. simpl. unfold bind at 1. simpl. unfold bind at 1. simpl.
  destruct (is_None slitarg) eqn:Hn; simpl.
  - reflexivity.
  - destruct (Hs eq_refl) as [v Hv].
    unfold bind. rewrite (getattr_Some _ _ _ Hv). simpl. rewrite Hv.
    destruct v; reflexivity.
Qed.

(** The mask of [_build_mask] does not change the world, whatever it
    returns or raises. *)
Lemma build_mask_world E sciimg sciivar crmask mc slitarg w :
  snd (_build_mask E sciimg sciivar crmask mc slitarg w) = w.
Proof.
  unfold _build_mask, bind, getattr, int_img, float_img, bool_img, ret, raise.
  destruct (attrs (self w) !! "bpm") as [[]|]; simpl; try reflexivity.
  destruct sciimg; simpl; try reflexivity.
  destruct crmask; simpl; try reflexivity.
  destruct (is_None slitarg); simpl.
  - destruct sciivar; reflexivity.
  - destruct (attrs (self w) !! "slitmask"); simpl; [|reflexivity].
    destruct sciivar; reflexivity.
Qed.

(** ** [read_stack] *)

Lemma attr_after_reading files w name :
  attr (after_reading files w) name = attr w name.
Proof. reflexivity. Qed.

Lemma read_one_returns E bias pixel_flat bpm illum_flat cosmics file w b :
  attr w "bpm" = Some (VIntImg b) ->
  read_one E bias pixel_flat bpm illum_flat cosmics file w
  = (Ok (frame_of E bias pixel_flat bpm illum_flat cosmics b file),
     after_reading [file] w).
Proof.
  intros Hb. unfold read_one.
  unfold bind at 1. simpl.
  erewrite bind_Ok; [reflexivity|].
  rewrite (build_mask_returns _ _ _ _ _ _ _ b); [reflexivity| exact Hb | discriminate].
Qed.

Lemma after_reading_nil w : after_reading [] w = w.
Proof. destruct w. unfold after_reading. simpl. now rewrite app_nil_r. Qed.

Lemma after_reading_app f1 f2 w :
  after_reading f2 (after_reading f1 w) = after_reading (f1 ++ f2) w.
Proof. unfold after_reading. simpl. now rewrite app_assoc. Qed.

Lemma read_all_returns E bias pixel_flat bpm illum_flat cosmics b files :
  forall w, attr w "bpm" = Some (VIntImg b) ->
  mapM (read_one E bias pixel_flat bpm illum_flat cosmics) files w
  = (Ok (map (frame_of E bias pixel_flat bpm illum_flat cosmics b) files),
     after_reading files w).
Proof.
  induction files as [|f files IH]; intros w Hb; simpl.
  - unfold ret. now rewrite after_reading_nil.
  - rewrite (bind_Ok _ _ _ _ _ (read_one_returns _ _ _ _ _ _ _ _ _ Hb)).
    rewrite (bind_Ok _ _ _ _ _ (IH (after_reading [f] w) Hb)).
    unfold ret. now rewrite after_reading_app.
Qed.

Lemma read_stack_returns E bias pixel_flat bpm illum_flat cosmics b files w :
  attr w "bpm" = Some (VIntImg b) -> files <> [] ->
  read_stack E files bias pixel_flat bpm illum_flat cosmics w
  = (Ok (map (frame_of E bias pixel_flat bpm illum_flat cosmics b) files),
     after_reading files w).
Proof.
  intros Hb Hne. unfold read_stack.
  rewrite (bind_Ok _ _ _ _ _ (read_all_returns _ _ _ _ _ _ _ _ _ Hb)).
  destruct files; [congruence | reflexivity].
Qed.

(** ** Attributes *)

Lemma setattr_eq name v w : setattr name v w = (Ok tt, with_attr name v w).
Proof. reflexivity. Qed.

Lemma attr_with_attr_eq name v w : attr (with_attr name v w) name = Some v.
Proof. unfold attr, with_attr. simpl. apply lookup_insert_eq. Qed.

Lemma attr_with_attr_ne name v w name' :
  name <> name' -> attr (with_attr name v w) name' = attr w name'.
Proof. intros H. unfold attr, with_attr. simpl. now apply lookup_insert_ne. Qed.

Lemma bind_setattr {B} name v (f : unit -> M B) w :
  bind (setattr name v) f w = f tt (with_attr name v w).
Proof. reflexivity. Qed.

Lemma bind_get_self {B} (f : ScienceImage -> M B) w :
  bind get_self f w = f (self w) w.
Proof. reflexivity. Qed.

Lemma bind_ret {A B} (a : A) (f : A -> M B) w : bind (ret a) f w = f a w.
Proof. reflexivity. Qed.

Lemma bind_raise {A B} e (f : A -> M B) w :
  bind (raise e) f w = (Raise e, w).
Proof. reflexivity. Qed.

Lemma bind_getattr {B} name v (f : value -> M B) w :
  attr w name = Some v -> bind (getattr name) f w = f v w.
Proof. intros H. apply bind_Ok. now apply getattr_Some. Qed.

Lemma self_with_attr name v w :
  self (with_attr name v w) = set_attrs (<[name := v]> (attrs (self w))) (self w).
Proof. reflexivity. Qed.

Lemma nsci_with_attr name v w : nsci (self (with_attr name v w)) = nsci (self w).
Proof. reflexivity. Qed.
Lemma nbg_with_attr name v w : nbg (self (with_attr name v w)) = nbg (self w).
Proof. reflexivity. Qed.
Lemma ir_redux_with_attr name v w :
  ir_redux (self (with_attr name v w)) = ir_redux (self w).
Proof. reflexivity. Qed.
Lemma file_list_with_attr name v w :
  file_list (self (with_attr name v w)) = file_list (self w).
Proof. reflexivity. Qed.
Lemma bg_file_list_with_attr name v w :
  bg_file_list (self (with_attr name v w)) = bg_file_list (self w).
Proof. reflexivity. Qed.
Lemma frames_read_with_attr name v w :
  frames_read (with_attr name v w) = frames_read w.
Proof. reflexivity. Qed.
Lemma arrays_with_attr name v w : arrays (with_attr name v w) = arrays w.
Proof. reflexivity. Qed.
Lemma warnings_with_attr name v w : warnings (with_attr name v w) = warnings w.
Proof. reflexivity. Qed.

Ltac obj_simpl :=
  rewrite ?nsci_with_attr, ?nbg_with_attr, ?ir_redux_with_attr,
    ?file_list_with_attr, ?bg_file_list_with_attr, ?frames_read_with_attr,
    ?arrays_with_attr, ?warnings_with_attr.

(** ** [proc] *)

Ltac attr_simpl :=
  repeat first
    [ rewrite attr_with_attr_eq
    | rewrite attr_with_attr_ne by discriminate
    | rewrite attr_after_reading ].

Lemma all_files_nonempty s :
  constructed s -> (0 < nsci s)%nat -> all_files s <> [].
Proof.
  intros (Hn & _ & _) Hpos. unfold all_files.
  destruct (file_list s) as [|f l] eqn:Hl; [simpl in Hn; lia|].
  destruct (ir_redux s); simpl; congruence.
Qed.

(** The common start of [proc]: the calibrations are assigned, the option
    check passes, the frames are read. *)
Ltac proc_start Hc Hpos Hir b :=
  unfold proc_stack;
  rewrite !bind_setattr, bind_get_self; obj_simpl; rewrite Hir, bind_ret;
  erewrite bind_Ok;
    [| apply (read_stack_returns _ _ _ _ _ _ b);
       [ attr_simpl; reflexivity | apply all_files_nonempty; [exact Hc | exact Hpos] ] ];
  repeat match goal with
    | |- context [if ir_redux ?s then file_list ?s ++ bg_file_list ?s else file_list ?s] =>
        change (if ir_redux s then file_list s ++ bg_file_list s else file_list s)
          with (all_files s)
    end;
  repeat match goal with
    | |- context [map (frame_of ?E ?x ?y (VIntImg ?bb) ?z (negb (ir_redux ?s)) ?bb)
                      (all_files ?s)] =>
        change (map (frame_of E x y (VIntImg bb) z (negb (ir_redux s)) bb) (all_files s))
          with (proc_frames E x y z bb s)
    end.

Lemma proc_stack_unbound E bias pixel_flat b illum_flat sigma_clip sigrej maxiters w :
  constructed (self w) -> (1 < nsci (self w))%nat ->
  ir_redux (self w) && sigma_clip = false ->
  proc_outmask_stack E (nsci (self w)) sigma_clip sigrej maxiters
    (proc_frames E bias pixel_flat illum_flat b (self w)) = None ->
  raises (proc_stack E bias pixel_flat (VIntImg b) illum_flat sigma_clip sigrej maxiters)
         w (UnboundLocalError "outmask_stack").
Proof.
  intros Hc Hn Hir Ho. unfold raises.
  assert (Hpos : (0 < nsci (self w))%nat) by lia.
  proc_start Hc Hpos Hir b.
  apply Nat.ltb_lt in Hn. rewrite Hn, Ho. reflexivity.
Qed.


Lemma length_proc_weights s :
  constructed s ->
  length (proc_weights (nsci s) (nbg s) (ir_redux s)) = length (all_files s).
Proof.
  intros (Hn & Hb & _). unfold proc_weights, all_files.
  destruct (ir_redux s); rewrite ?length_app, !length_replicate; lia.
Qed.

Lemma length_proc_frames E bias pixel_flat illum_flat b s :
  length (proc_frames E bias pixel_flat illum_flat b s) = length (all_files s).
Proof. unfold proc_frames. now rewrite length_map. Qed.

(** The stacking of two or more science frames. *)
Lemma proc_stack_multi E bias pixel_flat b illum_flat sigma_clip sigrej maxiters w o :
  constructed (self w) -> (1 < nsci (self w))%nat ->
  ir_redux (self w) && sigma_clip = false ->
  let frames := proc_frames E bias pixel_flat illum_flat b (self w) in
  proc_outmask_stack E (nsci (self w)) sigma_clip sigrej maxiters frames = Some o ->
  length o = length frames ->
  let r := stacked_result E b (self w) (stacked E (self w) o frames) in
  returns (proc_stack E bias pixel_flat (VIntImg b) illum_flat sigma_clip sigrej maxiters) w
    (fun r' w' =>
       r' = r /\
       frames_read w' = frames_read w ++ all_files (self w) /\
       ir_redux (self w') = ir_redux (self w) /\
       attr w' "crmask" = Some (VBoolImg (r_crmask r)) /\
       attr w' "mask" = Some (VIntImg (r_mask r)) /\
       attr w' "sciimg" = Some (VFloatImg (r_sciimg r)) /\
       attr w' "sciivar" = Some (VFloatImg (r_sciivar r)) /\
       attr w' "rn2img" = Some (VFloatImg (r_rn2img r))).
Proof.
  intros Hc Hn Hir frames Ho Hlen r. unfold returns.
  assert (Hpos : (0 < nsci (self w))%nat) by lia.
  proc_start Hc Hpos Hir b.
  apply Nat.ltb_lt in Hn. rewrite Hn. fold frames. rewrite Ho.
  rewrite (length_proc_weights _ Hc), Hlen.
  unfold frames at 1. rewrite length_proc_frames, Nat.eqb_refl.
  cbv [negb]. rewrite !bind_setattr.
  erewrite bind_Ok;
    [| apply (build_mask_returns _ _ _ _ _ _ _ b); [attr_simpl; reflexivity | discriminate] ].
  rewrite bind_setattr. unfold ret.
  eexists _, _. split; [reflexivity|].
  split; [reflexivity|]. 
  repeat split; attr_simpl; reflexivity.
Qed.

Lemma returns_by_eval {A} (m : M A) w (P : A -> world -> bool) (Q : A -> world -> Prop) :
  (forall a w', P a w' = true -> Q a w') -> holds m w P = true -> returns m w Q.
Proof.
  unfold holds, returns. intros HPQ H.
  destruct (m w) as [[a|e] w']; [|discriminate]. eauto.
Qed.

Lemma returns_impl {A} (m : M A) w (Q Q' : A -> world -> Prop) :
  (forall a w', Q a w' -> Q' a w') -> returns m w Q -> returns m w Q'.
Proof. intros H (a & w' & Hm & HQ). exists a, w'. auto. Qed.

(** The stacking of a single science frame: the frame passes through. *)
Lemma proc_stack_single E bias pixel_flat b illum_flat sigma_clip sigrej maxiters w f :
  constructed (self w) -> file_list (self w) = [f] ->
  ir_redux (self w) && sigma_clip = false ->
  let r := frame_result
             (frame_of E bias pixel_flat (VIntImg b) illum_flat
                       (negb (ir_redux (self w))) b f) in
  returns (proc_stack E bias pixel_flat (VIntImg b) illum_flat sigma_clip sigrej maxiters) w
    (fun r' w' =>
       r' = r /\
       frames_read w' = frames_read w ++ all_files (self w) /\
       ir_redux (self w') = ir_redux (self w)).
Proof.
  intros Hc Hf Hir r. unfold returns.
  assert (Hn : nsci (self w) = 1%nat) by (destruct Hc as (-> & _); now rewrite Hf).
  assert (Hpos : (0 < nsci (self w))%nat) by lia.
  proc_start Hc Hpos Hir b.
  rewrite Hn. cbn [Nat.ltb Nat.leb].
  assert (Hall : exists rest, all_files (self w) = f :: rest).
  { unfold all_files. rewrite Hf. destruct (ir_redux (self w)); simpl; eauto. }
  destruct Hall as [rest Hall]. unfold proc_frames. rewrite Hall. cbn [map].
  rewrite !bind_setattr. unfold ret.
  eexists _, _. split; [reflexivity|].
  split; [reflexivity|]. split; reflexivity.
Qed.

(** [proc] after a stacking that returned: in a difference-imaging
    reduction the cosmic rays are those of the difference. *)
Lemma proc_after_stack E bias pixel_flat bpm illum_flat sigma_clip sigrej maxiters w
      (Q : ProcResult -> world -> Prop) :
  returns (proc_stack E bias pixel_flat bpm illum_flat sigma_clip sigrej maxiters) w Q ->
  returns (proc E bias pixel_flat bpm illum_flat sigma_clip sigrej maxiters) w
    (fun r' w' => exists r w1,
       Q r w1 /\
       r_sciimg r' = r_sciimg r /\ r_sciivar r' = r_sciivar r /\
       r_rn2img r' = r_rn2img r /\ r_mask r' = r_mask r /\
       r_crmask r' = (if ir_redux (self w1)
                      then build_crmask E (r_sciimg r) (r_sciivar r)
                      else r_crmask r) /\
       frames_read w' = frames_read w1).
Proof.
  intros (r & w1 & Hs & HQ). unfold returns, proc.
  rewrite (bind_Ok _ _ _ _ _ Hs), bind_get_self.
  destruct (ir_redux (self w1)) eqn:Hir.
  - rewrite bind_setattr. unfold ret. eexists _, _. split; [reflexivity|].
    exists r, w1. rewrite Hir. repeat split; auto.
  - unfold ret. eexists _, _. split; [reflexivity|].
    exists r, w1. rewrite Hir. repeat split; auto.
Qed.

Lemma proc_raises_of_stack E bias pixel_flat bpm illum_flat sigma_clip sigrej maxiters w e :
  raises (proc_stack E bias pixel_flat bpm illum_flat sigma_clip sigrej maxiters) w e ->
  raises (proc E bias pixel_flat bpm illum_flat sigma_clip sigrej maxiters) w e.
Proof.
  unfold raises, proc, bind. 
  destruct (proc_stack _ _ _ _ _ _ _ _ w) as [[r|e'] w1]; simpl; [discriminate|auto].
Qed.

Lemma constructed_fresh files bg : constructed (self (fresh files bg)).
Proof. repeat split. Qed.

Lemma constructed_ir_redux s :
  constructed s -> ir_redux s = negb (bool_decide (bg_file_list s = [])).
Proof.
  intros (_ & _ & ->). destruct (bg_file_list s); reflexivity.
Qed.

(** ** Configuration and unbound-variable errors of [proc] *)

(** C7.  [proc] with [sigma_clip=True] on an object that has background
    frames raises the error of [msgs.error] ("You cannot sigma clip with
    difference imaging ..."), and no raw frame has been read when it does. *)
Theorem proc_sigma_clip_difference_imaging
        E bias pixel_flat bpm illum_flat sigrej maxiters w :
  constructed (self w) -> bg_file_list (self w) <> [] ->
  raises (proc E bias pixel_flat bpm illum_flat true sigrej maxiters) w
    (PypeItError
       "You cannot sigma clip with difference imaging as this will reject objects") /\
  frames_read (snd (proc E bias pixel_flat bpm illum_flat true sigrej maxiters w))
  = frames_read w.
Proof.
  intros Hc Hbg.
  assert (Hir : ir_redux (self w) = true).
  { rewrite (constructed_ir_redux _ Hc). now rewrite bool_decide_eq_false_2. }
  assert (Hs : proc_stack E bias pixel_flat bpm illum_flat true sigrej maxiters w
               = (Raise (PypeItError
                    "You cannot sigma clip with difference imaging as this will reject objects"),
                  with_attr "illum_flat" illum_flat
                    (with_attr "pixel_flat" pixel_flat
                       (with_attr "bias" bias (with_attr "bpm" bpm w))))).
  { unfold proc_stack. rewrite !bind_setattr, bind_get_self. obj_simpl.
    rewrite Hir. reflexivity. }
  unfold raises, proc. rewrite (bind_Raise _ _ _ _ _ Hs). split; reflexivity.
Qed.

Lemma proc_sigma_clip_difference_imaging_witness :
  constructed (self (fresh ["on"] ["off"])) /\
  bg_file_list (self (fresh ["on"] ["off"])) <> [] /\
  raises (proc toy VNone VNone no_bpm VNone true None 5) (fresh ["on"] ["off"])
    (PypeItError
       "You cannot sigma clip with difference imaging as this will reject objects").
Proof.
  split; [apply constructed_fresh|]. split; [discriminate|].
  apply (proc_sigma_clip_difference_imaging toy VNone VNone no_bpm VNone None 5
           (fresh ["on"] ["off"])).
  - apply constructed_fresh.
  - discriminate.
Defined.

(** C10.  [proc] with exactly two science frames, no background frame and
    [sigma_clip=True] raises the unbound-local error of [outmask_stack]:
    the clipping that would bind it needs more than two frames, and the
    other assignment is in the [else] of [if sigma_clip]. *)
Theorem proc_two_frames_sigma_clip_unbound
        E bias pixel_flat b illum_flat sigrej maxiters w :
  constructed (self w) ->
  length (file_list (self w)) = 2%nat -> bg_file_list (self w) = [] ->
  raises (proc E bias pixel_flat (VIntImg b) illum_flat true sigrej maxiters) w
         (UnboundLocalError "outmask_stack").
Proof.
  intros Hc Hlen Hbg. apply proc_raises_of_stack.
  assert (Hn : nsci (self w) = 2%nat) by (destruct Hc as (-> & _); exact Hlen).
  assert (Hir : ir_redux (self w) = false).
  { rewrite (constructed_ir_redux _ Hc), Hbg. reflexivity. }
  apply proc_stack_unbound; auto.
  - lia.
  - now rewrite Hir.
  - rewrite Hn. reflexivity.
Qed.

Lemma proc_two_frames_sigma_clip_unbound_witness :
  constructed (self (fresh ["on"; "dark"] [])) /\
  length (file_list (self (fresh ["on"; "dark"] []))) = 2%nat /\
  bg_file_list (self (fresh ["on"; "dark"] [])) = [] /\
  raises (proc toy VNone VNone no_bpm VNone true None 5) (fresh ["on"; "dark"] [])
         (UnboundLocalError "outmask_stack").
Proof.
  split; [apply constructed_fresh|]. split; [reflexivity|]. split; [reflexivity|].
  apply (proc_two_frames_sigma_clip_unbound toy VNone VNone (fun _ => 0) VNone None 5
           (fresh ["on"; "dark"] [])); [apply constructed_fresh | reflexivity | reflexivity].
Defined.

(** ** Prerequisites of [local_skysub_extract] *)

(** C2.  On a newly constructed object, [local_skysub_extract] with the
    default [maskslits=None] does not reach the check of its prerequisites:
    [_get_goodslits] subscripts [self.tslits_dict], which is [None], and the
    call ends in the [TypeError] of that subscript, with no warning printed
    that names a stage to run. *)
Theorem local_skysub_extract_fresh_object E sobjs waveimg files bg_files :
  raises (local_skysub_extract E sobjs waveimg VNone) (fresh files bg_files)
         (TypeError "'NoneType' object is not subscriptable") /\
  warnings (snd (local_skysub_extract E sobjs waveimg VNone (fresh files bg_files))) = [].
Proof. split; vm_compute; reflexivity. Qed.

(** ** The cosmic rays of a stack *)

Lemma count_axis0_all (stack : list (image bool)) p :
  count_axis0 stack p = Z.of_nat (length stack) <->
  (forall c, c ∈ stack -> c p = true).
Proof.
  unfold count_axis0. induction stack as [|c stack IH].
  - split; [intros _ c Hc; inversion Hc | reflexivity].
  - rewrite filter_cons. pose proof (length_filter (fun a : pixel -> bool => a p = true) stack) as Hle.
    destruct (decide (c p = true)) as [Hc|Hc]; simpl length.
    + split.
      * intros H c' Hin. apply elem_of_cons in Hin as [->|Hin]; [exact Hc|].
        apply IH; [lia | exact Hin].
      * intros H. f_equal. f_equal.
        assert (Hs : Z.of_nat (length (filter (fun a : pixel -> bool => a p = true) stack))
                     = Z.of_nat (length stack)).
        { apply IH. intros c' Hin. apply H. now right. }
        exact (Nat2Z.inj _ _ Hs).
    + split; [lia|]. intros H. exfalso. apply Hc, H. now left.
Qed.

Lemma stack_crmask_all (stack : list (image bool)) p :
  stack_crmask stack (length stack) p = true <->
  (forall c, c ∈ stack -> c p = true).
Proof. unfold stack_crmask. rewrite Z.eqb_eq. apply count_axis0_all. Qed.

Lemma frames_crmask_all (frames : list Frame) p :
  stack_crmask (map f_crmask frames) (length frames) p = true <->
  (forall f, f ∈ frames -> f_crmask f p = true).
Proof.
  rewrite <- (length_map f_crmask frames), stack_crmask_all. split.
  - intros H f Hf. apply H. now apply list_elem_of_fmap_2.
  - intros H c Hc. apply list_elem_of_fmap in Hc as (f & -> & Hf). now apply H.
Qed.

(** C5.  When [proc] stacks two or more science frames, the cosmic-ray mask
    that the stacking assigns to [self.crmask] is true at a pixel exactly
    when the cosmic-ray flag of that pixel is set in every frame of the
    stack, so that it is false as soon as one frame does not flag the
    pixel; without background frames this is the mask that [proc] returns. *)
Theorem proc_crmask_all_frames
        E bias pixel_flat b illum_flat sigma_clip sigrej maxiters w o :
  constructed (self w) -> (1 < nsci (self w))%nat ->
  ir_redux (self w) && sigma_clip = false ->
  let frames := proc_frames E bias pixel_flat illum_flat b (self w) in
  proc_outmask_stack E (nsci (self w)) sigma_clip sigrej maxiters frames = Some o ->
  length o = length frames ->
  let all_flagged c := forall p,
    (c p = true <-> (forall f, f ∈ frames -> f_crmask f p = true)) /\
    (forall f, f ∈ frames -> f_crmask f p = false -> c p = false) in
  returns (proc_stack E bias pixel_flat (VIntImg b) illum_flat sigma_clip sigrej maxiters) w
    (fun r w' => attr w' "crmask" = Some (VBoolImg (r_crmask r)) /\
                 all_flagged (r_crmask r)) /\
  (ir_redux (self w) = false ->
   returns (proc E bias pixel_flat (VIntImg b) illum_flat sigma_clip sigrej maxiters) w
     (fun r _ => all_flagged (r_crmask r))).
Proof.
  intros Hc Hn Hir frames Ho Hlen all_flagged.
  pose proof (proc_stack_multi E bias pixel_flat b illum_flat sigma_clip sigrej maxiters
                w o Hc Hn Hir Ho Hlen) as Hs. cbv zeta in Hs.
  assert (Hall : all_flagged (s_crmask (stacked E (self w) o frames))).
  { intros p. unfold stacked, stack_frames. cbn [s_crmask].
    rewrite <- (length_proc_frames E bias pixel_flat illum_flat b (self w)).
    fold frames. pose proof (frames_crmask_all frames p) as Hiff.
    split; [exact Hiff|].
    intros f Hf Hfalse.
    destruct (stack_crmask (map f_crmask frames) (length frames) p) eqn:Hcr; [|reflexivity].
    rewrite (proj1 Hiff eq_refl f Hf) in Hfalse. discriminate. }
  split.
  - eapply returns_impl; [|exact Hs].
    intros r w' (-> & _ & _ & Hcr & _). split; [exact Hcr | exact Hall].
  - intros Hnoir. eapply returns_impl; [|apply proc_after_stack, Hs].
    intros r' w' (r & w1 & (-> & _ & Hir1 & _) & _ & _ & _ & _ & Hcr & _).
    rewrite Hir1, Hnoir in Hcr. rewrite Hcr. exact Hall.
Qed.

Lemma proc_crmask_all_frames_witness :
  let w := fresh ["hit"; "hit"] [] in
  let frames := proc_frames toy VNone VNone VNone (fun _ => 0) (self w) in
  constructed (self w) /\ (1 < nsci (self w))%nat /\
  ir_redux (self w) && false = false /\
  proc_outmask_stack toy (nsci (self w)) false None 5 frames = Some (unmasked frames) /\
  length (unmasked frames) = length frames /\
  returns (proc toy VNone VNone no_bpm VNone false None 5) w
          (fun r _ => r_crmask r (0, 0)%nat = true).
Proof.
  intros w frames.
  split; [apply constructed_fresh|]. split; [simpl; lia|]. split; [reflexivity|].
  split; [reflexivity|]. split; [reflexivity|].
  destruct (proc_crmask_all_frames toy VNone VNone (fun _ => 0) VNone false None 5 w
              (unmasked frames) (constructed_fresh _ _) (Nat.lt_succ_diag_r 1)
              eq_refl eq_refl eq_refl) as [_ Hp].
  eapply returns_impl; [|exact (Hp eq_refl)].
  intros r w' Hall. apply (Hall (0, 0)%nat).
  intros f Hf. unfold frames, proc_frames in Hf. simpl in Hf.
  apply elem_of_cons in Hf as [->|Hf]; [reflexivity|].
  apply elem_of_cons in Hf as [->|Hf]; [reflexivity|].
  inversion Hf.
Defined.

(** ** The composite mask *)

Lemma flagged_turn_on v f g :
  flagged (turn_on v f) g = flagged v g || bool_decide (f = g).
Proof.
  unfold flagged, turn_on. rewrite Z.lor_spec. f_equal.
  destruct f, g; reflexivity.
Qed.

Lemma flagged_turn_on_where mask indx f g p :
  flagged (turn_on_where mask indx f p) g
  = flagged (mask p) g || (indx p && bool_decide (f = g)).
Proof.
  unfold turn_on_where. destruct (indx p).
  - apply flagged_turn_on.
  - now rewrite orb_false_r.
Qed.

(** The minimum-counts bit of a mask: the test is made whenever the
    argument [mincounts] is true as a Python value. *)
Lemma flagged_mincounts E b sci ivar cr mc offslits p :
  flagged (mask_bits E b sci ivar cr mc offslits p) MINCOUNTS
  = truthy mc && F.leb (sci p) (mincounts E).
Proof.
  unfold mask_bits. rewrite !flagged_turn_on_where.
  destruct offslits, (truthy mc); rewrite ?flagged_turn_on_where;
    unfold flagged; simpl; rewrite ?andb_false_r, ?andb_true_r, ?orb_false_r;
    simpl; reflexivity.
Qed.

(** [~True] is [-2] and [~False] is [-1]: both are true. *)
Lemma truthy_py_invert b : truthy (py_invert b) = true.
Proof. destruct b; reflexivity. Qed.

(** With the check disabled, [_build_mask] never sets the bit. *)
Lemma build_mask_mincounts_off E sciimg sciivar crmask slitarg w :
  forall m w', _build_mask E sciimg sciivar crmask 0 slitarg w = (Ok m, w') ->
  forall p, flagged (m p) MINCOUNTS = false.
Proof.
  intros m w' H p. revert H.
  unfold _build_mask, bind, getattr, int_img, float_img, bool_img, ret, raise.
  destruct (attrs (self w) !! "bpm") as [[]|]; simpl; try discriminate.
  destruct sciimg; simpl; try discriminate.
  destruct crmask; simpl; try discriminate.
  destruct (is_None slitarg); simpl.
  - destruct sciivar; try discriminate. intros [= <- _].
    rewrite !flagged_turn_on_where. unfold flagged. simpl.
    rewrite ?andb_false_r, ?orb_false_r. reflexivity.
  - destruct (attrs (self w) !! "slitmask") as [sm|]; simpl; try discriminate.
    destruct sciivar; try discriminate. intros [= <- _].
    destruct sm; rewrite !flagged_turn_on_where; unfold flagged; simpl;
      rewrite ?andb_false_r, ?orb_false_r; reflexivity.
Qed.

(** The minimum-counts test of the mask that [proc] builds after a
    stacking is made with and without background frames. *)
Lemma proc_stack_mincounts_tested
      E bias pixel_flat b illum_flat sigma_clip sigrej maxiters w o :
  constructed (self w) -> (1 < nsci (self w))%nat ->
  ir_redux (self w) && sigma_clip = false ->
  let frames := proc_frames E bias pixel_flat illum_flat b (self w) in
  proc_outmask_stack E (nsci (self w)) sigma_clip sigrej maxiters frames = Some o ->
  length o = length frames ->
  returns (proc E bias pixel_flat (VIntImg b) illum_flat sigma_clip sigrej maxiters) w
    (fun r _ => forall p,
       flagged (r_mask r p) MINCOUNTS = F.leb (r_sciimg r p) (mincounts E)).
Proof.
  intros Hc Hn Hir frames Ho Hlen.
  eapply returns_impl;
    [|apply proc_after_stack, (proc_stack_multi E bias pixel_flat b illum_flat sigma_clip
                                 sigrej maxiters w o Hc Hn Hir Ho Hlen)].
  intros r' w' (r & w1 & (-> & _) & Hsci & _ & _ & Hmask & _) p.
  rewrite Hmask, Hsci. unfold stacked_result. cbn [r_mask r_sciimg].
  now rewrite flagged_mincounts, truthy_py_invert.
Qed.

(** C3.  The code sets the bit in a difference-imaging reduction: two dark
    science frames and two background frames at 3000 counts combine to
    -3000 counts, below the minimum of -1000 counts of the detector, and the
    mask that [proc] returns has MINCOUNTS set there.  [proc] passes
    [mincounts=~self.ir_redux], and [~True] is [-2], which is true. *)
Theorem proc_difference_imaging_sets_mincounts :
  returns (proc toy VNone VNone no_bpm VNone false None 5)
          (fresh ["dark"; "dark"] ["bright"; "bright"])
          (fun r _ => r_sciimg r (0, 0)%nat = F.of_Z (-3000) /\
                      flagged (r_mask r (0, 0)%nat) MINCOUNTS = true).
Proof.
  apply (returns_by_eval _ _
           (fun r _ => same (r_sciimg r (0, 0)%nat) (F.of_Z (-3000))
                       && flagged (r_mask r (0, 0)%nat) MINCOUNTS)).
  - intros r _ H. apply andb_true_iff in H as [H1 H2]. split; [now apply same_eq | exact H2].
  - vm_compute. reflexivity.
Qed.

Lemma build_mask_agree E sciimg sciivar crmask mc slitarg w w' :
  attr w "bpm" = attr w' "bpm" -> attr w "slitmask" = attr w' "slitmask" ->
  fst (_build_mask E sciimg sciivar crmask mc slitarg w')
  = fst (_build_mask E sciimg sciivar crmask mc slitarg w).
Proof.
  unfold attr. intros Hb Hs.
  unfold _build_mask, bind, getattr, int_img, float_img, bool_img, ret, raise.
  rewrite <- Hb.
  destruct (attrs (self w) !! "bpm") as [[]|]; simpl; try reflexivity.
  destruct sciimg; simpl; try reflexivity.
  destruct crmask; simpl; try reflexivity.
  destruct (is_None slitarg); simpl.
  - destruct sciivar; reflexivity.
  - rewrite <- Hs.
    destruct (attrs (self w) !! "slitmask"); simpl; [|reflexivity].
    destruct sciivar; reflexivity.
Qed.

(** C9.  [_build_mask] leaves the world as it found it, so that a second
    invocation with the same arguments gives the same outcome as the first,
    bit for bit; and its outcome is the same in any two worlds whose objects
    hold the same bad-pixel mask and the same slit map. *)
Theorem build_mask_pure E sciimg sciivar crmask mc slitarg w :
  let run := _build_mask E sciimg sciivar crmask mc slitarg in
  snd (run w) = w /\
  fst (run (snd (run w))) = fst (run w) /\
  (forall w', attr w "bpm" = attr w' "bpm" ->
              attr w "slitmask" = attr w' "slitmask" ->
              fst (run w') = fst (run w) /\ snd (run w') = w').
Proof.
  intros run. split; [apply build_mask_world|].
  split; [unfold run; now rewrite build_mask_world|].
  intros w' Hb Hs. split; [now apply build_mask_agree | apply build_mask_world].
Qed.

Lemma build_mask_pure_witness :
  let run := _build_mask toy (VFloatImg (fun _ => F.of_Z 70000))
                         (VFloatImg (fun _ => F.one)) (VBoolImg (fun _ => false))
                         1 VNone in
  let w := with_attr "bpm" no_bpm (fresh ["on"] []) in
  let w' := with_attr "sciimg" VNone (after_reading ["on"] w) in
  attr w "bpm" = attr w' "bpm" /\ attr w "slitmask" = attr w' "slitmask" /\
  fst (run w') = fst (run w) /\ snd (run w') = w' /\
  holds run w (fun m _ => m (0, 0)%nat =? 4) = true.
Proof.
  intros run w w'.
  split; [reflexivity|]. split; [reflexivity|].
  destruct (build_mask_pure toy (VFloatImg (fun _ => F.of_Z 70000))
              (VFloatImg (fun _ => F.one)) (VBoolImg (fun _ => false)) 1 VNone w)
    as (_ & _ & H).
  destruct (H w' eq_refl eq_refl) as [H1 H2].
  split; [exact H1|]. split; [exact H2|]. vm_compute. reflexivity.
Defined.

(** ** The weights of a difference-imaging reduction *)

Lemma same_refl x : same x x = true.
Proof. destruct x; simpl; auto. apply Qeq_bool_iff. reflexivity. Qed.

Lemma same_neq x y : same x y = false -> x <> y.
Proof. intros H ->. rewrite same_refl in H. discriminate. Qed.

(** With a single science frame [proc] does not stack: the science frame
    is the image it returns, whatever the background frames. *)
Lemma proc_single_science_frame E bias pixel_flat b illum_flat sigrej maxiters w f :
  constructed (self w) -> file_list (self w) = [f] ->
  returns (proc E bias pixel_flat (VIntImg b) illum_flat false sigrej maxiters) w
    (fun r _ => r_sciimg r = process E f bias pixel_flat illum_flat (VIntImg b)).
Proof.
  intros Hc Hf.
  eapply returns_impl;
    [|apply proc_after_stack,
        (proc_stack_single E bias pixel_flat b illum_flat false sigrej maxiters w f Hc Hf)].
  - intros r' w' (r & w1 & (-> & _) & Hsci & _). rewrite Hsci. reflexivity.
  - apply andb_false_r.
Qed.

(** C4.  With one science frame at 5 counts and one background frame at 2
    counts, all pixels unmasked, [proc] returns the science frame, 5 counts,
    and not the difference of 3 counts: the stacking, and the weights with
    it, are under [if self.nsci > 1]. *)
Theorem proc_one_on_one_off_not_differenced :
  returns (proc toy VNone VNone no_bpm VNone false None 5) (fresh ["on"] ["off"])
          (fun r _ => r_sciimg r (0, 0)%nat = F.of_Z 5 /\
                      r_sciimg r (0, 0)%nat <> F.sub (F.of_Z 5) (F.of_Z 2) /\
                      r_mask r (0, 0)%nat = 0).
Proof.
  apply (returns_by_eval _ _
           (fun r _ => same (r_sciimg r (0, 0)%nat) (F.of_Z 5)
                       && negb (same (r_sciimg r (0, 0)%nat) (F.sub (F.of_Z 5) (F.of_Z 2)))
                       && (r_mask r (0, 0)%nat =? 0))).
  - intros r _ H. apply andb_true_iff in H as [H H3].
    apply andb_true_iff in H as [H1 H2].
    split; [now apply same_eq|]. split; [|now apply Z.eqb_eq].
    apply same_neq. now apply negb_true_iff.
  - vm_compute. reflexivity.
Qed.

(** ** Sums of finite floats *)

Lemma finite_Fin x : finite x <-> exists q, x = F.Fin q.
Proof.
  unfold finite. split.
  - destruct x; try discriminate. eauto.
  - intros [q ->]. reflexivity.
Qed.

Lemma Qc_eqb_true x y : F.Qc_eqb x y = true <-> x = y.
Proof.
  unfold F.Qc_eqb. rewrite Qeq_bool_iff. split.
  - apply Qc_is_canon.
  - now intros ->.
Qed.

Lemma Qc_eqb_false x y : F.Qc_eqb x y = false <-> x <> y.
Proof.
  rewrite <- Qc_eqb_true. destruct (F.Qc_eqb x y); split; congruence.
Qed.

Lemma sum_finite (l : list float) :
  (forall x, x ∈ l -> finite x) ->
  forall a, exists r, fold_left F.add l (F.Fin a) = F.Fin r.
Proof.
  induction l as [|x l IH]; intros Hl a; simpl.
  - eauto.
  - destruct (proj1 (finite_Fin x) (Hl x (list_elem_of_here _ _))) as [q ->].
    simpl. apply IH. intros y Hy. apply Hl. now right.
Qed.

Lemma sum_zeros (l : list float) :
  (forall x, x ∈ l -> x = F.zero) -> F.sum l = F.zero.
Proof.
  unfold F.sum. induction l as [|x l IH]; intros Hl; cbn [fold_left].
  - reflexivity.
  - rewrite (Hl x (list_elem_of_here _ _)).
    replace (F.add F.zero F.zero) with F.zero by (symmetry; apply same_eq; reflexivity).
    apply IH. intros y Hy. apply Hl. now right.
Qed.

Lemma mul_zero_r x : finite x -> F.mul x F.zero = F.zero.
Proof.
  intros [q ->]%finite_Fin. unfold F.zero, F.of_Z. simpl. f_equal.
  rewrite Z2Qc_inj_0. ring.
Qed.

Lemma of_bool_false : F.of_bool false = F.zero.
Proof. reflexivity. Qed.

(** ** The weights of [proc] *)

Lemma of_nat_pos_ne n : (0 < n)%nat -> Qc_of_Z (Z.of_nat n) <> 0%Qc.
Proof. intros Hn H. rewrite <- Z2Qc_inj_0 in H. apply Z2Qc_inj in H. lia. Qed.

Lemma proc_weights_finite s x :
  constructed s -> (0 < nsci s)%nat ->
  x ∈ proc_weights (nsci s) (nbg s) (ir_redux s) -> finite x.
Proof.
  intros (_ & Hb & Hir) Hn Hx. unfold proc_weights in Hx.
  assert (Hsci : finite (F.div F.one (F.of_nat (nsci s)))).
  { unfold F.div, F.one, F.of_nat, F.of_Z.
    rewrite (proj2 (Qc_eqb_false _ _) (of_nat_pos_ne _ Hn)). reflexivity. }
  destruct (ir_redux s) eqn:Hi.
  - apply elem_of_app in Hx as [Hx|Hx]; apply elem_of_replicate_inv in Hx; subst x; [exact Hsci|].
    assert (Hm : (0 < nbg s)%nat).
    { rewrite Hb. symmetry in Hir. now apply Nat.ltb_lt in Hir. }
    unfold F.div, F.mul, F.one, F.of_nat, F.of_Z.
    rewrite (proj2 (Qc_eqb_false _ _) (of_nat_pos_ne _ Hm)). reflexivity.
  - apply elem_of_replicate_inv in Hx. now subst x.
Qed.

Lemma weights_stack_finite weights o y p :
  (forall x, x ∈ weights -> finite x) ->
  y ∈ weights_stack weights o -> finite (y p).
Proof.
  intros Hw Hy. unfold weights_stack in Hy.
  apply elem_of_zip_with in Hy as (x & m & -> & Hx & _).
  destruct (proj1 (finite_Fin x) (Hw x Hx)) as [q ->]. reflexivity.
Qed.

(** The divisor of the normalisation is a finite number other than zero. *)
Lemma norm_nonzero (ws : list (image float)) p :
  (forall y, y ∈ ws -> finite (y p)) ->
  exists q, norm (sum_axis0 ws) p = F.Fin q /\ q <> 0%Qc.
Proof.
  intros Hws. unfold norm, sum_axis0, F.sum, F.zero, F.of_Z.
  destruct (sum_finite (map (fun a : image float => a p) ws)) with (a := Qc_of_Z 0)
    as [r Hr].
  { intros x Hx. apply list_elem_of_fmap in Hx as (y & -> & Hy). now apply Hws. }
  rewrite Hr. simpl. destruct (F.Qc_eqb r (Qc_of_Z 0)) eqn:Hz; simpl.
  - apply Qc_eqb_true in Hz. subst r. eexists. split; [reflexivity|].
    rewrite Z2Qc_inj_0, Z2Qc_inj_1. intros H. discriminate H.
  - apply Qc_eqb_false in Hz. eexists. split; [reflexivity|].
    rewrite Z2Qc_inj_0 in *. now rewrite Qcplus_0_r.
Qed.

Lemma Fin_inj a b : F.Fin a = F.Fin b -> a = b.
Proof.
  intros H.
  exact (f_equal (fun x => match x with F.Fin q => q | _ => a end) H).
Qed.

Lemma count_axis0_cons (m : image bool) o p :
  count_axis0 (m :: o) p = Z.b2z (m p) + count_axis0 o p.
Proof.
  unfold count_axis0. rewrite filter_cons.
  destruct (decide (m p = true)) as [H|H].
  - rewrite H. simpl length. simpl Z.b2z. lia.
  - apply not_true_is_false in H. rewrite H. simpl Z.b2z. lia.
Qed.

Lemma count_axis0_zero (o : list (image bool)) p :
  count_axis0 o p = 0 -> forall m, m ∈ o -> m p = false.
Proof.
  induction o as [|m' o IH]; intros H m Hm; [inversion Hm|].
  rewrite count_axis0_cons in H.
  assert (Hnn : 0 <= count_axis0 o p) by (unfold count_axis0; lia).
  apply elem_of_cons in Hm as [->|Hm].
  - destruct (m' p); [simpl in H; lia | reflexivity].
  - apply IH; [destruct (m' p); simpl in H; lia | exact Hm].
Qed.

(** The sum of one weight over the frames that are good at a pixel. *)
Lemma sum_one_weight (c : Qc) (o : list (image bool)) p :
  forall a,
    fold_left F.add
      (map (fun y : image float => y p)
           ((fun (m : image bool) q => F.mul (F.Fin c) (F.of_bool (m q))) <$> o))
      (F.Fin a)
    = F.Fin (a + c * Qc_of_Z (count_axis0 o p)).
Proof.
  induction o as [|m o IH]; intros a; cbn [map fold_left fmap list_fmap].
  - f_equal. change (count_axis0 [] p) with 0. rewrite Z2Qc_inj_0. ring.
  - change (F.add (F.Fin a) (F.mul (F.Fin c) (F.of_bool (m p))))
      with (F.Fin (a + c * Qc_of_Z (Z.b2z (m p)))).
    rewrite IH. f_equal.
    rewrite count_axis0_cons, Z2Qc_inj_add. ring.
Qed.

(** Without background frames, a weight sum of zero at a pixel means that
    no frame is used there. *)
Lemma weights_sum_zero_no_frame (n k : nat) (o : list (image bool)) p :
  (0 < n)%nat -> (length o <= n)%nat ->
  sum_axis0 (weights_stack (proc_weights n k false) o) p = F.zero ->
  forall m, m ∈ o -> m p = false.
Proof.
  intros Hn Hlen Hsum. apply count_axis0_zero.
  unfold proc_weights, weights_stack in Hsum.
  rewrite zip_with_replicate_l in Hsum by exact Hlen.
  unfold F.div, F.one, F.of_nat, F.of_Z in Hsum.
  rewrite (proj2 (Qc_eqb_false _ _) (of_nat_pos_ne _ Hn)) in Hsum.
  unfold sum_axis0, F.sum, F.zero, F.of_Z in Hsum.
  rewrite sum_one_weight in Hsum. apply Fin_inj in Hsum.
  rewrite Z2Qc_inj_0, Qcplus_0_l in Hsum.
  apply Qcmult_integral in Hsum as [Hsum|Hsum].
  - exfalso. rewrite Z2Qc_inj_1 in Hsum. unfold Qcdiv in Hsum. rewrite Qcmult_1_l in Hsum.
    pose proof (Qcmult_inv_l _ (of_nat_pos_ne _ Hn)) as H1.
    rewrite Hsum, Qcmult_0_l in H1. discriminate H1.
  - rewrite <- Z2Qc_inj_0 in Hsum. now apply Z2Qc_inj in Hsum.
Qed.

(** ** Pixels at which no frame is used *)

Lemma unused_weights_zero weights (o : list (image bool)) p :
  (forall x, x ∈ weights -> finite x) ->
  (forall m, m ∈ o -> m p = false) ->
  forall y, y ∈ weights_stack weights o -> y p = F.zero.
Proof.
  intros Hw Ho y Hy. unfold weights_stack in Hy.
  apply elem_of_zip_with in Hy as (x & m & -> & Hx & Hm).
  rewrite (Ho m Hm), of_bool_false. apply mul_zero_r, Hw, Hx.
Qed.

Lemma norm_of_zero (ws : list (image float)) p :
  (forall y, y ∈ ws -> y p = F.zero) -> norm (sum_axis0 ws) p = F.one.
Proof.
  intros Hws. unfold norm, sum_axis0. rewrite sum_zeros.
  - apply same_eq. reflexivity.
  - intros x Hx. apply list_elem_of_fmap in Hx as (y & -> & Hy). now apply Hws.
Qed.

Lemma weighted_sum_unused (stack ws : list (image float)) p :
  (forall a, a ∈ stack -> finite (a p)) ->
  (forall y, y ∈ ws -> y p = F.zero) ->
  sum_axis0 (mul_stack stack ws) p = F.zero.
Proof.
  intros Hs Hws. unfold sum_axis0. apply sum_zeros.
  intros x Hx. apply list_elem_of_fmap in Hx as (z & -> & Hz).
  unfold mul_stack in Hz. apply elem_of_zip_with in Hz as (a & y & -> & Ha & Hy).
  rewrite (Hws y Hy). apply mul_zero_r, Hs, Ha.
Qed.

Lemma stack_mean_unused (stack ws : list (image float)) p :
  (forall a, a ∈ stack -> finite (a p)) ->
  (forall y, y ∈ ws -> y p = F.zero) ->
  stack_mean stack ws p = F.zero.
Proof.
  intros Hs Hws. unfold stack_mean.
  rewrite weighted_sum_unused, norm_of_zero by assumption.
  apply same_eq. reflexivity.
Qed.

Lemma stack_var_unused (stack ws : list (image float)) p :
  (forall a, a ∈ stack -> finite (a p)) ->
  (forall y, y ∈ ws -> y p = F.zero) ->
  stack_var stack ws p = F.zero.
Proof.
  intros Hs Hws. unfold stack_var.
  rewrite weighted_sum_unused, norm_of_zero; try assumption.
  - apply same_eq. reflexivity.
  - intros y Hy. unfold sq_stack in Hy.
    apply list_elem_of_fmap in Hy as (z & -> & Hz). rewrite (Hws z Hz).
    apply same_eq. reflexivity.
Qed.

(** C8, as the code has it.  In the combination of two or more science
    frames, the divisor [weights_sum + (weights_sum == 0.0)] is a finite
    number other than zero at every pixel, so that nothing is divided by
    zero.  At a pixel where no frame is used and the frames are finite, the
    combined image and read-noise image are zero and the inverse variance
    is that of a zero variance.  Without background frames, the sum of the
    weights is zero only at such pixels. *)
Theorem proc_unused_pixels
        E bias pixel_flat b illum_flat sigma_clip sigrej maxiters w o :
  constructed (self w) -> (1 < nsci (self w))%nat ->
  ir_redux (self w) && sigma_clip = false ->
  let frames := proc_frames E bias pixel_flat illum_flat b (self w) in
  proc_outmask_stack E (nsci (self w)) sigma_clip sigrej maxiters frames = Some o ->
  length o = length frames ->
  let ws := weights_stack
              (proc_weights (nsci (self w)) (nbg (self w)) (ir_redux (self w))) o in
  returns (proc E bias pixel_flat (VIntImg b) illum_flat sigma_clip sigrej maxiters) w
    (fun r _ => forall p,
       (exists q, norm (sum_axis0 ws) p = F.Fin q /\ q <> 0%Qc) /\
       ((forall m, m ∈ o -> m p = false) ->
        (forall f, f ∈ frames ->
           finite (f_sciimg f p) /\ finite (calc_ivar E (f_sciivar f p)) /\
           finite (f_rn2img f p)) ->
        r_sciimg r p = F.zero /\ r_sciivar r p = calc_ivar E F.zero /\
        r_rn2img r p = F.zero) /\
       (ir_redux (self w) = false -> sum_axis0 ws p = F.zero ->
        forall m, m ∈ o -> m p = false)).
Proof.
  intros Hc Hn Hir frames Ho Hlen ws.
  assert (Hpos : (0 < nsci (self w))%nat) by lia.
  assert (Hfin : forall x,
             x ∈ proc_weights (nsci (self w)) (nbg (self w)) (ir_redux (self w)) ->
             finite x) by (intros x; now apply proc_weights_finite).
  eapply returns_impl;
    [|apply proc_after_stack, (proc_stack_multi E bias pixel_flat b illum_flat sigma_clip
                                 sigrej maxiters w o Hc Hn Hir Ho Hlen)].
  intros r' w' (r & w1 & (-> & _) & Hsci & Hivar & Hrn2 & _) p.
  rewrite Hsci, Hivar, Hrn2. unfold stacked_result, stacked, stack_frames.
  cbn [r_sciimg r_sciivar r_rn2img s_sciimg s_sciivar s_rn2img]. fold frames. fold ws.
  split; [|split].
  - apply norm_nonzero. intros y Hy.
    exact (weights_stack_finite _ o y p Hfin Hy).
  - intros Hun Hff.
    assert (Hz : forall y, y ∈ ws -> y p = F.zero) by now apply unused_weights_zero.
    rewrite stack_mean_unused, !stack_var_unused; auto.
    + intros a Ha. apply list_elem_of_fmap in Ha as (f & -> & Hf). apply (Hff f Hf).
    + intros a Ha. apply list_elem_of_fmap in Ha as (f & -> & Hf). apply (Hff f Hf).
    + intros a Ha. apply list_elem_of_fmap in Ha as (f & -> & Hf). apply (Hff f Hf).
  - intros Hnoir Hsum. unfold ws in Hsum. rewrite Hnoir in Hsum.
    apply (weights_sum_zero_no_frame (nsci (self w)) (nbg (self w))); auto.
    rewrite Hlen. unfold frames. rewrite length_proc_frames.
    unfold all_files. rewrite Hnoir. destruct Hc as (-> & _). lia.
Qed.

Lemma proc_unused_pixels_witness :
  let w := fresh ["saturated"; "saturated"] [] in
  let frames := proc_frames toy VNone VNone VNone (fun _ => 0) (self w) in
  constructed (self w) /\ (1 < nsci (self w))%nat /\
  ir_redux (self w) && false = false /\
  proc_outmask_stack toy (nsci (self w)) false None 5 frames = Some (unmasked frames) /\
  length (unmasked frames) = length frames /\
  returns (proc toy VNone VNone no_bpm VNone false None 5) w
          (fun r _ => r_sciimg r (0, 0)%nat = F.zero /\ r_rn2img r (0, 0)%nat = F.zero).
Proof.
  intros w frames.
  split; [apply constructed_fresh|]. split; [simpl; lia|]. split; [reflexivity|].
  split; [reflexivity|]. split; [reflexivity|].
  eapply returns_impl;
    [|exact (proc_unused_pixels toy VNone VNone (fun _ => 0) VNone false None 5 w
               (unmasked frames) (constructed_fresh _ _) (Nat.lt_succ_diag_r 1)
               eq_refl eq_refl eq_refl)].
  intros r w' H. destruct (H (0, 0)%nat) as (_ & Hun & _).
  destruct Hun as (H1 & _ & H3).
  - intros m Hm. unfold frames, proc_frames, unmasked in Hm. simpl in Hm.
    apply elem_of_cons in Hm as [->|Hm]; [reflexivity|].
    apply elem_of_cons in Hm as [->|Hm]; [reflexivity|]. inversion Hm.
  - intros f Hf. unfold frames, proc_frames in Hf. simpl in Hf.
    apply elem_of_cons in Hf as [->|Hf]; [repeat split|].
    apply elem_of_cons in Hf as [->|Hf]; [repeat split|]. inversion Hf.
  - split; assumption.
Defined.

(** C8 fails where the weights of the frames in use cancel: with two
    science frames at 5 counts and two background frames at 2 counts, all
    unmasked, the weights at a pixel sum to zero and the combined image is
    the difference, 3 counts. *)
Lemma zero_weight_sum_nonzero_image :
  let w := fresh ["on"; "on"] ["off"; "off"] in
  let frames := proc_frames toy VNone VNone VNone (fun _ => 0) (self w) in
  let ws := weights_stack (proc_weights 2 2 true) (unmasked frames) in
  proc_outmask_stack toy 2 false None 5 frames = Some (unmasked frames) /\
  sum_axis0 ws (0, 0)%nat = F.zero /\
  returns (proc toy VNone VNone no_bpm VNone false None 5) w
          (fun r _ => r_sciimg r (0, 0)%nat = F.of_Z 3 /\
                      r_sciimg r (0, 0)%nat <> F.zero).
Proof.
  intros w frames ws. split; [reflexivity|]. split.
  - apply same_eq. vm_compute. reflexivity.
  - apply (returns_by_eval _ _
             (fun r _ => same (r_sciimg r (0, 0)%nat) (F.of_Z 3)
                         && negb (same (r_sciimg r (0, 0)%nat) F.zero))).
    + intros r _ H. apply andb_true_iff in H as [H1 H2].
      split; [now apply same_eq|]. apply same_neq. now apply negb_true_iff.
    + vm_compute. reflexivity.
Qed.

(** ** The masked slits *)

Lemma attr_with_array a w name : attr (with_array a w) name = attr w name.
Proof. reflexivity. Qed.

Lemma attr_with_stored r a w name : attr (with_stored r a w) name = attr w name.
Proof. reflexivity. Qed.

Lemma bind_load {B} r a (f : list bool -> M B) w :
  arrays w !! r = Some a -> bind (load r) f w = f a w.
Proof. intros H. unfold bind, load. now rewrite H. Qed.

Lemma bind_store {B} r a (f : unit -> M B) w :
  bind (store r a) f w = f tt (with_stored r a w).
Proof. reflexivity. Qed.

Lemma bind_alloc {B} a (f : nat -> M B) w :
  bind (alloc a) f w = f (length (arrays w)) (with_array a w).
Proof. reflexivity. Qed.

Lemma bind_assoc {A B C} (m : M A) (f : A -> M B) (g : B -> M C) w :
  bind (bind m f) g w = bind m (fun x => bind (f x) g) w.
Proof. unfold bind. destruct (m w) as [[a|e] w']; reflexivity. Qed.

(** What [_get_goodslits] leaves of the world. *)
Lemma slits_given_world w ms r a w' :
  slits_given w ms r a w' ->
  arrays w' !! r = Some a /\
  attr w' "maskslits" = Some (VBoolArr r) /\
  (forall name, name <> "maskslits" -> attr w' name = attr w name) /\
  self w' = set_attrs (attrs (self w')) (self w) /\
  frames_read w' = frames_read w /\ warnings w' = warnings w /\
  (forall r' a', arrays w !! r' = Some a' -> arrays w' !! r' = Some a').
Proof.
  intros H. destruct H as [r a Ha | r a Hm Ha | t Hm Ht].
  - split; [exact Ha|]. split; [apply attr_with_attr_eq|].
    split; [intros n Hn; now apply attr_with_attr_ne|].
    repeat split; auto.
  - split; [exact Ha|]. split; [exact Hm|]. split; [reflexivity|].
    split; [now destruct w as [[]]|]. repeat split; auto.
  - split.
    { unfold with_attr, with_array. simpl.
      rewrite lookup_app_r by lia. now rewrite Nat.sub_diag. }
    split; [apply attr_with_attr_eq|].
    split; [intros n Hn; now rewrite attr_with_attr_ne|].
    split; [reflexivity|]. split; [reflexivity|]. split; [reflexivity|].
    intros r' a' H. unfold with_attr, with_array. simpl.
    now apply lookup_app_l_Some.
Qed.

Lemma get_goodslits_returns ms r a w w' {B} (f : nat * list bool -> M B) :
  slits_given w ms r a w' ->
  bind (_get_goodslits ms) (fun x => bind (deref x) f) w = f (r, a) w'.
Proof.
  intros H. unfold _get_goodslits. rewrite bind_assoc.
  destruct H as [r a Ha | r a Hm Ha | t Hm Ht]; cbn [is_None negb].
  - rewrite bind_setattr, (bind_getattr "maskslits" (VBoolArr r)) by apply attr_with_attr_eq.
    unfold deref. rewrite bind_assoc, (bind_load r a) by exact Ha. reflexivity.
  - rewrite bind_assoc, (bind_getattr _ _ _ _ Hm). cbn [is_None].
    rewrite bind_ret, (bind_getattr _ _ _ _ Hm).
    unfold deref. rewrite bind_assoc, (bind_load r a) by exact Ha. reflexivity.
  - rewrite bind_assoc, (bind_getattr _ _ _ _ Hm). cbn [is_None].
    rewrite bind_assoc, (bind_getattr _ _ _ _ Ht).
    rewrite bind_assoc, bind_alloc, bind_setattr.
    rewrite (bind_getattr "maskslits" (VBoolArr (length (arrays w))))
      by apply attr_with_attr_eq.
    unfold deref. rewrite bind_assoc.
    rewrite (bind_load _ (replicate (nslits t) false)).
    + reflexivity.
    + unfold with_attr, with_array. simpl.
      rewrite lookup_app_r by lia. now rewrite Nat.sub_diag.
Qed.

(** ** The slit loop of [global_skysub] *)

Lemma elem_of_where_not (a : list bool) i :
  i ∈ where_not a <-> a !! i = Some false.
Proof.
  unfold where_not. rewrite list_elem_of_filter, elem_of_seq. split.
  - now intros [H _].
  - intros H. split; [exact H|]. apply lookup_lt_Some in H. lia.
Qed.

Section SkyLoop.

Variable E : Collab.
Variables sciimg sciivar tilts : image float.
Variable t : TSlits.
Variables mask slitmask : image Z.
Variable crmask : value.
Variable skymask : image bool.
Variable pos_mask : Z.

Let fit := slit_fit E sciimg sciivar tilts t mask slitmask crmask skymask pos_mask.
Let body := global_skysub_slit E sciimg sciivar tilts t mask slitmask crmask
                               skymask pos_mask.

Lemma sky_sum_zero_ext sky sky' slit :
  (forall p, slitmask p = Z.of_nat slit -> sky p = sky' p) ->
  sky_sum_zero E slitmask sky slit = sky_sum_zero E slitmask sky' slit.
Proof.
  intros H. unfold sky_sum_zero. f_equal. f_equal.
  apply map_ext_in. intros p Hp. apply H.
  unfold slit_pixels in Hp. apply list_elem_of_In, list_elem_of_filter in Hp as [Hp _].
  now apply Z.eqb_eq.
Qed.

Lemma global_skysub_slit_eq st slit :
  body st slit
  = (fun p => if slitmask p =? Z.of_nat slit then fit slit p else fst st p,
     if sky_sum_zero E slitmask (fit slit) slit
     then <[slit := true]> (snd st) else snd st).
Proof.
  unfold body, global_skysub_slit. fold (fit slit).
  set (gs := fun p => if slitmask p =? Z.of_nat slit then fit slit p else fst st p).
  change (F.eqb _ F.zero) with (sky_sum_zero E slitmask gs slit).
  rewrite (sky_sum_zero_ext gs (fit slit)).
  - now destruct (sky_sum_zero E slitmask (fit slit) slit).
  - intros p Hp. unfold gs. now rewrite Hp, Z.eqb_refl.
Qed.

Lemma sky_loop l : forall st,
  let res := fold_left body l st in
  (forall s p, s ∈ l -> slitmask p = Z.of_nat s -> fst res p = fit s p) /\
  (forall p, (forall s, s ∈ l -> slitmask p <> Z.of_nat s) -> fst res p = fst st p) /\
  (forall i, snd res !! i
             = (fun m => m || (bool_decide (i ∈ l)
                               && sky_sum_zero E slitmask (fit i) i))
                 <$> (snd st !! i)).
Proof.
  induction l as [|s l IH]; intros st res; subst res.
  - split; [intros s p Hs; inversion Hs|]. split; [reflexivity|].
    intros i. cbn [fold_left]. destruct (snd st !! i); simpl; [|reflexivity].
    now rewrite orb_false_r.
  - cbn [fold_left]. remember (body st s) as st1 eqn:Hst1.
    rewrite global_skysub_slit_eq in Hst1.
    destruct (IH st1) as (IHa & IHb & IHc).
    split; [|split].
    + intros s' p Hs' Hp. destruct (decide (s' ∈ l)) as [Hl|Hl].
      * now apply IHa.
      * assert (s' = s) as -> by (apply elem_of_cons in Hs' as [|]; tauto).
        rewrite IHb.
        -- rewrite Hst1. cbn [fst]. now rewrite Hp, Z.eqb_refl.
        -- intros s'' Hs'' Heq. rewrite Hp in Heq. apply Nat2Z.inj in Heq. congruence.
    + intros p Hp. rewrite IHb.
      * rewrite Hst1. cbn [fst].
        destruct (slitmask p =? Z.of_nat s) eqn:Heq; [|reflexivity].
        apply Z.eqb_eq in Heq. exfalso. apply (Hp s); [left | exact Heq].
      * intros s' Hs'. apply Hp. now right.
    + intros i. rewrite IHc, Hst1. cbn [snd].
      destruct (decide (i = s)) as [->|Hne].
      * rewrite (bool_decide_eq_true_2 (s ∈ s :: l)) by left.
        destruct (sky_sum_zero E slitmask (fit s) s) eqn:Hz.
        -- destruct (snd st !! s) eqn:Hs.
           ++ rewrite list_lookup_insert_eq by (now apply lookup_lt_Some in Hs).
              simpl. now rewrite orb_true_r.
           ++ rewrite list_insert_ge by (now apply lookup_ge_None). now rewrite Hs.
        -- destruct (snd st !! s); simpl; [|reflexivity].
           now rewrite andb_false_r, !orb_false_r.
      * assert (Hd : bool_decide (i ∈ s :: l) = bool_decide (i ∈ l)).
        { apply bool_decide_ext. rewrite elem_of_cons. tauto. }
        rewrite Hd.
        destruct (sky_sum_zero E slitmask (fit s) s);
          [rewrite list_lookup_insert_ne by congruence|]; reflexivity.
Qed.

End SkyLoop.

(** ** [global_skysub] *)

Lemma attr_slitmask_world_eq E smv t slitmask w :
  attr w "slitmask" = Some smv -> slitmask_used E smv t = Some slitmask ->
  attr (slitmask_world smv slitmask w) "slitmask" = Some (VIntImg slitmask).
Proof.
  intros Hs Hu. unfold slitmask_world.
  destruct smv; simpl in *; try discriminate.
  - apply attr_with_attr_eq.
  - now injection Hu as ->.
Qed.

Lemma attr_slitmask_world_ne smv slitmask w name :
  "slitmask" <> name -> attr (slitmask_world smv slitmask w) name = attr w name.
Proof.
  intros H. unfold slitmask_world. destruct (is_None smv); [|reflexivity].
  now apply attr_with_attr_ne.
Qed.

Lemma assign_slitmask_returns E smv t slitmask w {B} (f : image Z -> M B) :
  attr w "slitmask" = Some smv -> slitmask_used E smv t = Some slitmask ->
  bind (assign_slitmask E (VSlits t)) f w = f slitmask (slitmask_world smv slitmask w).
Proof.
  intros Hs Hu. unfold assign_slitmask.
  rewrite bind_assoc, (bind_getattr _ _ _ _ Hs). unfold slitmask_world.
  destruct smv; simpl in Hu; try discriminate; cbn [is_None].
  - injection Hu as <-. rewrite bind_assoc, bind_setattr, bind_assoc.
    rewrite (bind_getattr "slitmask" (VIntImg (spectrograph_slitmask E t)))
      by apply attr_with_attr_eq.
    reflexivity.
  - injection Hu as <-. rewrite bind_assoc, bind_ret, bind_assoc.
    rewrite (bind_getattr _ _ _ _ Hs). reflexivity.
Qed.

Ltac attr_step :=
  first
    [ rewrite attr_with_attr_eq
    | rewrite attr_with_attr_ne by discriminate
    | rewrite attr_with_stored
    | rewrite attr_with_array
    | rewrite attr_after_reading
    | rewrite attr_slitmask_world_ne by discriminate
    | match goal with
      | H : forall name, name <> _ -> attr ?w1 name = _ |- context [attr ?w1 _] =>
          rewrite H by discriminate
      end ].

Ltac solve_attr := repeat attr_step; first [reflexivity | eassumption].

Ltac mstep :=
  rewrite ?bind_assoc;
  first
    [ rewrite bind_setattr
    | rewrite bind_ret
    | rewrite bind_get_self
    | rewrite bind_store
    | erewrite bind_getattr by solve_attr ];
  cbn [is_None float_img int_img bool_img negb].

Lemma bind_append_step {B} name l (f : unit -> M B) w :
  attr w "steps" = Some (VStrs l) ->
  bind (append_step name) f w = f tt (with_attr "steps" (VStrs (l ++ [name])) w).
Proof.
  intros H. unfold append_step. rewrite bind_assoc, (bind_getattr _ _ _ _ H).
  now rewrite bind_setattr.
Qed.

Lemma arrays_with_stored r a w : arrays (with_stored r a w) = <[r := a]> (arrays w).
Proof. reflexivity. Qed.

Lemma arrays_slitmask_world smv slitmask w :
  arrays (slitmask_world smv slitmask w) = arrays w.
Proof. unfold slitmask_world. now destruct (is_None smv). Qed.

Lemma global_skysub_returns E w sci ivar rn2 m cr b smv sk t tl use_skymask
      update_crmask ms r a w1 slitmask :
  combined w sci ivar rn2 m cr b smv sk ->
  slitmask_used E smv t = Some slitmask ->
  slits_given (with_attr "tilts" (VFloatImg tl) (with_attr "tslits_dict" (VSlits t) w))
              ms r a w1 ->
  let res := sky_loop_result E sci ivar tl t m slitmask cr (skymask_used sk use_skymask)
                             (ir_redux (self w)) a in
  returns (global_skysub E (VSlits t) (VFloatImg tl) use_skymask update_crmask ms) w
    (fun gs w' =>
       gs = fst res /\
       arrays w' !! r = Some (snd res) /\
       attr w' "maskslits" = Some (VBoolArr r) /\
       exists m' cr', sky_subtracted w' sci ivar rn2 gs tl t slitmask m' cr').
Proof.
  intros [Hsci Hivar Hrn2 Hm Hcr Hb Hsm Hsk [steps Hst]] Hused Hgiven res.
  unfold sky_loop_result in res.
  destruct (slits_given_world _ _ _ _ _ Hgiven)
    as (Harr & Hms & Hsame & Hself & _ & _ & _).
  assert (Hir : ir_redux (self w1) = ir_redux (self w)) by (now rewrite Hself).
  assert (Hsm1 : attr w1 "slitmask" = Some smv) by solve_attr.
  unfold returns, global_skysub.
  rewrite !bind_setattr, (get_goodslits_returns _ _ _ _ _ _ Hgiven).
  rewrite (assign_slitmask_returns _ _ _ _ _ _ Hsm1 Hused).
  do 2 mstep. repeat mstep. cbn [fst snd].
  replace (ir_redux (self (slitmask_world smv slitmask w1))) with (ir_redux (self w))
    by (unfold slitmask_world; destruct (is_None smv); obj_simpl; now rewrite Hir).
  fold res.
  assert (Hfinal : forall w', 
             arrays w' !! r = Some (snd res) ->
             attr w' "maskslits" = Some (VBoolArr r) ->
             attr w' "sciimg" = Some (VFloatImg sci) ->
             attr w' "sciivar" = Some (VFloatImg ivar) ->
             attr w' "rn2img" = Some (VFloatImg rn2) ->
             attr w' "global_sky" = Some (VFloatImg (fst res)) ->
             attr w' "tilts" = Some (VFloatImg tl) ->
             attr w' "tslits_dict" = Some (VSlits t) ->
             attr w' "slitmask" = Some (VIntImg slitmask) ->
             (exists m', attr w' "mask" = Some (VIntImg m')) ->
             (exists cr', attr w' "crmask" = Some cr') ->
             attr w' "steps" = Some (VStrs steps) ->
             exists gs w'',
               (append_step "global_skysub";;; ret (fst res)) w' = (Ok gs, w'') /\
               gs = fst res /\ arrays w'' !! r = Some (snd res) /\
               attr w'' "maskslits" = Some (VBoolArr r) /\
               exists m' cr', sky_subtracted w'' sci ivar rn2 gs tl t slitmask m' cr').
  { intros w' Ha Hms' H1 H2 H3 H4 H5 H6 H7 [m' H8] [cr' H9] H10.
    rewrite (bind_append_step _ _ _ _ H10). unfold ret.
    eexists _, _. split; [reflexivity|]. split; [reflexivity|].
    split; [exact Ha|]. split; [solve_attr|].
    exists m', cr'. constructor; try solve_attr.
    eexists. solve_attr. }
  assert (Hstored : arrays (with_stored r (snd res)
                      (with_attr "global_sky" (VFloatImg (fst res))
                         (slitmask_world smv slitmask w1))) !! r = Some (snd res)).
  { rewrite arrays_with_stored, arrays_with_attr, arrays_slitmask_world.
    apply list_lookup_insert_eq. now apply lookup_lt_Some in Harr. }
  assert (Hsmw : attr (slitmask_world smv slitmask w1) "slitmask"
                 = Some (VIntImg slitmask))
    by (eapply attr_slitmask_world_eq; eassumption).
  destruct update_crmask.
  - mstep. rewrite ?bind_assoc.
    erewrite bind_Ok;
      [| apply (build_mask_returns _ _ _ _ _ _ _ b);
         [ solve_attr | intros _; eexists; solve_attr ] ].
    mstep. apply Hfinal; try solve_attr; eauto.
    + eexists. solve_attr.
    + eexists. solve_attr.
  - mstep. apply Hfinal; try solve_attr; eauto.
    + exists m. solve_attr.
    + eexists. solve_attr.
Qed.


(** ** [local_skysub_extract] *)

Lemma chk_objs_present items : forall w,
  (forall name, name ∈ items -> exists v, attr w name = Some v /\ is_None v = false) ->
  _chk_objs items w = (Ok true, w).
Proof.
  induction items as [|obj items IH]; intros w H; cbn [_chk_objs].
  - reflexivity.
  - destruct (H obj (list_elem_of_here _ _)) as (v & Hv & Hn).
    rewrite (bind_getattr _ _ _ _ Hv), Hn. apply IH.
    intros name Hname. apply H. now right.
Qed.

Lemma extract_loop_untouched E sci ivar tilts wv gs rn2 t m slitmask cr sobjs p l :
  forall md,
    (forall s, s ∈ l -> slitmask p <> Z.of_nat s) ->
    let res := fold_left
                 (local_skysub_extract_slit E sci ivar tilts wv gs rn2 t m slitmask
                                            cr sobjs) l md in
    skymodel res p = skymodel md p /\ objmodel res p = objmodel md p /\
    ivarmodel res p = ivarmodel md p /\ extractmask res p = extractmask md p.
Proof.
  induction l as [|s l IH]; intros md Hl res; subst res; cbn [fold_left].
  - repeat split.
  - destruct (IH (local_skysub_extract_slit E sci ivar tilts wv gs rn2 t m slitmask
                    cr sobjs md s)) as (H1 & H2 & H3 & H4).
    { intros s' Hs'. apply Hl. now right. }
    rewrite H1, H2, H3, H4. unfold local_skysub_extract_slit.
    destruct (negb _); [|repeat split].
    destruct (skysub_local_skysub_extract _ _ _ _ _ _ _ _ _ _ _ _) as [[[sky obj] iv] ext].
    cbn [skymodel objmodel ivarmodel extractmask].
    assert (Hne : (slitmask p =? Z.of_nat s) = false).
    { apply Z.eqb_neq, Hl. left. }
    rewrite Hne. repeat split.
Qed.

Lemma local_skysub_extract_returns E w sci ivar rn2 gs tl t slitmask m cr sobjs wv
      ms r a w1 :
  sky_subtracted w sci ivar rn2 gs tl t slitmask m cr ->
  slits_given (with_attr "waveimg" (VFloatImg wv) w) ms r a w1 ->
  let md := extract_loop_result E sci ivar tl wv gs rn2 t m slitmask cr sobjs a in
  returns (local_skysub_extract E sobjs (VFloatImg wv) ms) w
    (fun x w' =>
       x = mkExtraction (skymodel md) (objmodel md) (ivarmodel md)
             (add_extract_bit m (fun p => (m p =? 0) && negb (extractmask md p)))
             sobjs /\
       attr w' "extractmask" = Some (VBoolImg (extractmask md)) /\
       attr w' "outmask" = Some (VIntImg (x_outmask x)) /\
       attr w' "mask" = Some (VIntImg m)).
Proof.
  intros [Hsci Hivar Hrn2 Hgs Htl Ht Hsm Hm Hcr [steps Hst]] Hgiven md.
  unfold extract_loop_result in md.
  destruct (slits_given_world _ _ _ _ _ Hgiven)
    as (Harr & Hms & Hsame & Hself & _ & _ & _).
  unfold returns, local_skysub_extract.
  rewrite bind_setattr, (get_goodslits_returns _ _ _ _ _ _ Hgiven).
  mstep.
  assert (Hsm1 : attr w1 "slitmask" = Some (VIntImg slitmask)) by solve_attr.
  rewrite (assign_slitmask_returns E _ t slitmask _ _ Hsm1 eq_refl).
  unfold slitmask_world. cbn [is_None].
  erewrite bind_Ok; [|apply chk_objs_present].
  2:{ intros name Hname. repeat (apply elem_of_cons in Hname as [->|Hname]);
        [eexists; split; [solve_attr|reflexivity] ..|inversion Hname]. }
  cbn [negb]. repeat mstep. cbn [fst snd]. fold md.
  erewrite bind_append_step by solve_attr. unfold ret.
  eexists _, _. split; [reflexivity|].
  split; [reflexivity|]. repeat split; solve_attr.
Qed.

(** C1 fails on the code: the saturated pixel of a frame, on a slit with an
    object, is rejected by the extraction, and the mask that
    [local_skysub_extract] returns has its saturation bit there, not the
    bit of the extraction. *)
Lemma extract_bit_not_added_to_masked_pixel :
  returns (toy_reduction one_object) (fresh ["spot"] [])
    (fun gx w' => exists m ext,
       attr w' "mask" = Some (VIntImg m) /\
       attr w' "extractmask" = Some (VBoolImg ext) /\
       flagged (m (0, 0)%nat) SATURATION = true /\
       ext (0, 0)%nat = false /\
       flagged (x_outmask (snd gx) (0, 0)%nat) SATURATION = true /\
       flagged (x_outmask (snd gx) (0, 0)%nat) EXTRACT = false).
Proof.
  apply (returns_by_eval _ _
           (fun gx w' =>
              match attr w' "mask", attr w' "extractmask" with
              | Some (VIntImg m), Some (VBoolImg ext) =>
                  flagged (m (0, 0)%nat) SATURATION && negb (ext (0, 0)%nat)
                  && flagged (x_outmask (snd gx) (0, 0)%nat) SATURATION
                  && negb (flagged (x_outmask (snd gx) (0, 0)%nat) EXTRACT)
              | _, _ => false
              end)).
  - intros gx w' H.
    destruct (attr w' "mask") as [[]|]; try discriminate.
    destruct (attr w' "extractmask") as [[]|]; try discriminate.
    repeat (apply andb_true_iff in H as [H ?]).
    eexists _, _. repeat split; try assumption; now apply negb_true_iff.
  - vm_compute. reflexivity.
Qed.

(** C1, as the code has it.  [local_skysub_extract] returns the composite
    mask with the bit of the extraction added at the pixels that were clear
    on entry and that the extraction rejects; a pixel whose mask was not
    clear on entry keeps its mask as it was, whatever the extraction says
    of it.  No bit of the composite mask is lost. *)
Theorem local_skysub_extract_outmask
        E w sci ivar rn2 gs tl t slitmask m cr sobjs wv ms r a w1 :
  sky_subtracted w sci ivar rn2 gs tl t slitmask m cr ->
  slits_given (with_attr "waveimg" (VFloatImg wv) w) ms r a w1 ->
  returns (local_skysub_extract E sobjs (VFloatImg wv) ms) w
    (fun x w' => exists ext,
       attr w' "extractmask" = Some (VBoolImg ext) /\
       forall p,
         (m p <> 0 -> x_outmask x p = m p) /\
         (m p = 0 -> ext p = false -> x_outmask x p = turn_on 0 EXTRACT) /\
         (m p = 0 -> ext p = true -> x_outmask x p = 0) /\
         (forall f, flagged (m p) f = true -> flagged (x_outmask x p) f = true)).
Proof.
  intros Hsky Hgiven.
  eapply returns_impl; [|exact (local_skysub_extract_returns E w sci ivar rn2 gs tl t
                                  slitmask m cr sobjs wv ms r a w1 Hsky Hgiven)].
  intros x w' (-> & Hext & _). eexists. split; [exact Hext|].
  intros p. cbn [x_outmask]. unfold add_extract_bit.
  destruct (m p =? 0) eqn:Hm; cbn [andb].
  - apply Z.eqb_eq in Hm. rewrite Hm.
    split; [congruence|].
    split; [intros _ ->; reflexivity|].
    split; [intros _ ->; reflexivity|].
    intros f Hf. destruct f; discriminate Hf.
  - apply Z.eqb_neq in Hm. repeat split; congruence.
Qed.

Lemma local_skysub_extract_outmask_witness :
  exists sci ivar rn2 gs tl slitmask m r a w1,
    sky_subtracted toy_subtracted sci ivar rn2 gs tl three_slits slitmask m
                   (VBoolImg (fun _ => false)) /\
    slits_given (with_attr "waveimg" flat_image toy_subtracted) VNone r a w1 /\
    m (0, 0)%nat = 4 /\
    returns (local_skysub_extract toy one_object flat_image VNone) toy_subtracted
            (fun x _ => x_outmask x (0, 0)%nat = 4).
Proof.
  eexists _, _, _, _, _, _, _, _, _, _.
  assert (Hsky : sky_subtracted toy_subtracted (fun _ => F.one) (fun _ => F.one)
                   (fun _ => F.one) (fun _ => F.one) (fun _ => F.one) three_slits
                   (spectrograph_slitmask toy three_slits)
                   (fun p => if bool_decide (p = (0, 0)%nat) then 4 else 0)
                   (VBoolImg (fun _ => false))).
  { constructor; try reflexivity. eexists. reflexivity. }
  assert (Hgiven : slits_given (with_attr "waveimg" flat_image toy_subtracted) VNone
                     (length (arrays (with_attr "waveimg" flat_image toy_subtracted)))
                     (replicate (nslits three_slits) false)
                     (with_attr "maskslits"
                        (VBoolArr (length (arrays (with_attr "waveimg" flat_image
                                                               toy_subtracted))))
                        (with_array (replicate (nslits three_slits) false)
                                    (with_attr "waveimg" flat_image toy_subtracted)))).
  { apply slits_new; reflexivity. }
  split; [exact Hsky|]. split; [exact Hgiven|]. split; [reflexivity|].
  eapply returns_impl;
    [|exact (local_skysub_extract_outmask toy _ _ _ _ _ _ _ _ _ _ one_object _ _ _ _ _
               Hsky Hgiven)].
  intros x w' (ext & _ & H). destruct (H (0, 0)%nat) as (H1 & _).
  apply H1. discriminate.
Defined.

(** ** Slits whose sky is zero *)

(** C6.  [global_skysub] fits every slit that is not masked on entry and
    writes the fit on the pixels of the slit; at the end such a slit is
    masked exactly when the sky on its pixels sums to zero, the slits that
    were masked on entry stay masked, and [maskslits] is the array the
    object holds.  A later [local_skysub_extract] that takes the masked
    slits from the object (or is given the same array) leaves the pixels of
    every masked slit at their defaults: the global sky, no object, the
    inverse variance of the image. *)
Theorem zero_sky_slit_excluded
        E w sci ivar rn2 m cr b smv sk t tl use_skymask update_crmask ms r a w1
        slitmask sobjs wv :
  combined w sci ivar rn2 m cr b smv sk ->
  slitmask_used E smv t = Some slitmask ->
  slits_given (with_attr "tilts" (VFloatImg tl) (with_attr "tslits_dict" (VSlits t) w))
              ms r a w1 ->
  returns (global_skysub E (VSlits t) (VFloatImg tl) use_skymask update_crmask ms) w
    (fun gs w' => exists a',
       arrays w' !! r = Some a' /\
       attr w' "maskslits" = Some (VBoolArr r) /\
       (forall s, a !! s = Some false ->
                  a' !! s = Some (sky_sum_zero E slitmask gs s)) /\
       (forall s, a !! s = Some true -> a' !! s = Some true) /\
       (forall s, a !! s = None -> a' !! s = None) /\
       (forall s p, a !! s = Some false -> slitmask p = Z.of_nat s ->
                    gs p = slit_fit E sci ivar tl t m slitmask (VBoolImg cr)
                                    (skymask_used sk use_skymask)
                                    (py_invert (ir_redux (self w))) s p) /\
       (forall ms', ms' = VNone \/ ms' = VBoolArr r ->
          returns (local_skysub_extract E sobjs (VFloatImg wv) ms') w'
            (fun x _ => forall s p,
               a' !! s = Some true -> slitmask p = Z.of_nat s ->
               x_skymodel x p = gs p /\ x_objmodel x p = F.zero /\
               x_ivarmodel x p = ivar p))).
Proof.
  intros Hc Hused Hgiven.
  eapply returns_impl;
    [|exact (global_skysub_returns E w sci ivar rn2 m cr b smv sk t tl use_skymask
               update_crmask ms r a w1 slitmask Hc Hused Hgiven)].
  intros gs w' (-> & Harr & Hms & m' & cr' & Hsky).
  unfold sky_loop_result in *.
  destruct (sky_loop E sci ivar tl t m slitmask (VBoolImg cr)
              (skymask_used sk use_skymask) (py_invert (ir_redux (self w)))
              (where_not a) (fun _ => F.zero, a)) as (Hfit & _ & Hmark).
  cbv zeta in Hfit, Hmark.
  set (res := fold_left _ (where_not a) _) in *.
  exists (snd res). split; [exact Harr|]. split; [exact Hms|].
  split; [|split; [|split; [|split]]].
  - intros s Hs. rewrite Hmark. cbn [snd]. rewrite Hs. cbn [fmap option_fmap option_map].
    rewrite bool_decide_eq_true_2 by (now apply elem_of_where_not).
    cbn [orb andb]. f_equal. symmetry. apply sky_sum_zero_ext.
    intros p Hp. apply Hfit; [now apply elem_of_where_not | exact Hp].
  - intros s Hs. rewrite Hmark. cbn [snd]. rewrite Hs. reflexivity.
  - intros s Hs. rewrite Hmark. cbn [snd]. rewrite Hs. reflexivity.
  - intros s p Hs Hp. apply Hfit; [now apply elem_of_where_not | exact Hp].
  - intros ms' Hms'.
    assert (Hg : exists w2,
               slits_given (with_attr "waveimg" (VFloatImg wv) w') ms' r (snd res) w2).
    { destruct Hms' as [-> | ->].
      - eexists. apply slits_previous.
        + rewrite attr_with_attr_ne by discriminate. exact Hms.
        + exact Harr.
      - eexists. apply slits_argument. exact Harr. }
    destruct Hg as [w2 Hg].
    eapply returns_impl;
      [|exact (local_skysub_extract_returns E w' sci ivar rn2 (fst res) tl t slitmask
                 m' cr' sobjs wv ms' r (snd res) w2 Hsky Hg)].
    intros x w3 (-> & _) s p Hs Hp. cbn [x_skymodel x_objmodel x_ivarmodel].
    unfold extract_loop_result.
    destruct (extract_loop_untouched E sci ivar tl wv (fst res) rn2 t m' slitmask cr'
                sobjs p (where_not (snd res))
                (mkModels (fst res) (fun _ => F.zero) ivar (fun q => m' q =? 0)))
      as (H1 & H2 & H3 & _).
    { intros s' Hs' Heq. apply elem_of_where_not in Hs'.
      rewrite Hp in Heq. apply Nat2Z.inj in Heq. subst s'. congruence. }
    cbv zeta in H1, H2, H3. rewrite H1, H2, H3. repeat split.
Qed.

Lemma zero_sky_slit_excluded_witness :
  exists sci ivar rn2 m cr b slitmask r a w1,
    combined toy_combined sci ivar rn2 m cr b VNone VNone /\
    slitmask_used toy VNone three_slits = Some slitmask /\
    slits_given (with_attr "tilts" flat_image
                   (with_attr "tslits_dict" (VSlits three_slits) toy_combined))
                VNone r a w1 /\
    a !! 1%nat = Some false /\
    returns (global_skysub toy (VSlits three_slits) flat_image true true VNone)
            toy_combined
            (fun gs w' => exists a',
               arrays w' !! r = Some a' /\
               a' !! 1%nat = Some (sky_sum_zero toy slitmask gs 1)).
Proof.
  eexists _, _, _, _, _, _, _, _, _, _.
  assert (Hc : combined toy_combined (fun p => F.of_Z (level "stripe" p))
                 (fun _ => F.one) (fun _ => F.one) (fun _ => 0) (fun _ => false)
                 (fun _ => 0) VNone VNone).
  { constructor; try reflexivity. eexists. reflexivity. }
  pose (w0 := with_attr "tilts" flat_image
                (with_attr "tslits_dict" (VSlits three_slits) toy_combined)).
  assert (Hgiven : slits_given w0 VNone (length (arrays w0))
                     (replicate (nslits three_slits) false)
                     (with_attr "maskslits" (VBoolArr (length (arrays w0)))
                        (with_array (replicate (nslits three_slits) false) w0))).
  { apply slits_new; reflexivity. }
  split; [exact Hc|]. split; [reflexivity|]. split; [exact Hgiven|].
  split; [reflexivity|].
  eapply returns_impl;
    [|exact (zero_sky_slit_excluded toy toy_combined _ _ _ _ _ _ VNone VNone three_slits
               (fun _ => F.one) true true VNone _ _ _ _ one_object (fun _ => F.one)
               Hc eq_refl Hgiven)].
  intros gs w' (a' & Harr & _ & Hmark & _). exists a'. split; [exact Harr|].
  apply Hmark. reflexivity.
Defined.

(** The whole reduction of a frame with no counts on the middle slit: the
    middle slit, and only it, is masked after [global_skysub], and the
    extraction leaves the global sky on its pixels. *)
Example toy_reduction_stripe :
  returns (toy_reduction one_object) (fresh ["stripe"] [])
    (fun gx w' => exists r,
       attr w' "maskslits" = Some (VBoolArr r) /\
       arrays w' !! r = Some [false; true; false] /\
       x_skymodel (snd gx) (0, 1)%nat = fst gx (0, 1)%nat /\
       x_outmask (snd gx) (0, 0)%nat = turn_on 0 EXTRACT).
Proof.
  apply (returns_by_eval _ _
           (fun gx w' =>
              match attr w' "maskslits" with
              | Some (VBoolArr r) =>
                  bool_decide (arrays w' !! r = Some [false; true; false])
                  && same (x_skymodel (snd gx) (0, 1)%nat) (fst gx (0, 1)%nat)
                  && (x_outmask (snd gx) (0, 0)%nat =? turn_on 0 EXTRACT)
              | _ => false
              end)).
  - intros gx w' H. destruct (attr w' "maskslits") as [[]|]; try discriminate.
    repeat (apply andb_true_iff in H as [H ?]).
    eexists. split; [reflexivity|]. split; [now apply bool_decide_eq_true in H|].
    split; [now apply same_eq | now apply Z.eqb_eq].
  - vm_compute. reflexivity.
Qed.

(** ** Difference imaging with two or more science frames *)

Lemma sum_const_list (l : list (image float)) p x :
  (forall y, y ∈ l -> y p = F.Fin x) ->
  forall a, fold_left F.add (map (fun y : image float => y p) l) (F.Fin a)
            = F.Fin (a + Qc_of_Z (Z.of_nat (length l)) * x).
Proof.
  induction l as [|y l IH]; intros Hl a; cbn [map fold_left length].
  - f_equal. change (Z.of_nat 0) with 0. rewrite Z2Qc_inj_0. ring.
  - rewrite (Hl y (list_elem_of_here _ _)). cbn [F.add].
    rewrite IH by (intros z Hz; apply Hl; now right). f_equal.
    rewrite Nat2Z.inj_succ, <- Z.add_1_r, Z2Qc_inj_add, Z2Qc_inj_1. ring.
Qed.

Lemma weights_used_const (c : Qc) n (o : list (image bool)) p v :
  (forall m, m ∈ o -> m p = true) ->
  v ∈ zip_with (fun wgt (m : image bool) => fun q => F.mul wgt (F.of_bool (m q)))
               (replicate n (F.Fin c)) o ->
  v p = F.Fin (c * Qc_of_Z 1).
Proof.
  intros Ho Hv. apply elem_of_zip_with in Hv as (x & m & -> & Hx & Hm).
  apply elem_of_replicate_inv in Hx. subst x. now rewrite (Ho m Hm).
Qed.

Lemma mul_stack_const (S ws : list (image float)) p x y v :
  (forall s, s ∈ S -> s p = F.Fin x) -> (forall u, u ∈ ws -> u p = F.Fin y) ->
  v ∈ mul_stack S ws -> v p = F.Fin (x * y).
Proof.
  intros HS Hws Hv. unfold mul_stack in Hv.
  apply elem_of_zip_with in Hv as (s & u & -> & Hs & Hu).
  now rewrite (HS s Hs), (Hws u Hu).
Qed.

(** The weighted mean of [n] science frames at [qa] and [k] background
    frames at [qb], all in use at a pixel, is [qa - qb] there. *)
Lemma stack_mean_difference (S1 S2 : list (image float)) (o1 o2 : list (image bool))
      n k qa qb p :
  length S1 = n -> length o1 = n -> length S2 = k -> length o2 = k ->
  (0 < n)%nat -> (0 < k)%nat ->
  (forall s, s ∈ S1 -> s p = F.Fin qa) -> (forall s, s ∈ S2 -> s p = F.Fin qb) ->
  (forall m, m ∈ o1 ++ o2 -> m p = true) ->
  stack_mean (S1 ++ S2) (weights_stack (proc_weights n k true) (o1 ++ o2)) p
  = F.Fin (qa - qb).
Proof.
  intros HS1 Ho1 HS2 Ho2 Hn Hk Ha Hb Ho.
  pose proof (of_nat_pos_ne _ Hn) as Hn0. pose proof (of_nat_pos_ne _ Hk) as Hk0.
  unfold proc_weights, weights_stack, F.one, F.of_nat, F.of_Z. cbn [F.mul F.div].
  rewrite (proj2 (Qc_eqb_false _ _) Hn0), (proj2 (Qc_eqb_false _ _) Hk0).
  rewrite zip_with_app by (now rewrite length_replicate).
  set (ws1 := zip_with _ (replicate n _) o1). set (ws2 := zip_with _ (replicate k _) o2).
  set (ca := (Qc_of_Z 1 / Qc_of_Z (Z.of_nat n))%Qc) in *.
  set (cb := (Qc_of_Z (-1) * Qc_of_Z 1 / Qc_of_Z (Z.of_nat k))%Qc) in *.
  assert (Hw1 : forall v, v ∈ ws1 -> v p = F.Fin (ca * Qc_of_Z 1)).
  { intros v Hv. apply (weights_used_const ca n o1); [|exact Hv].
    intros m Hm. apply Ho, elem_of_app. now left. }
  assert (Hw2 : forall v, v ∈ ws2 -> v p = F.Fin (cb * Qc_of_Z 1)).
  { intros v Hv. apply (weights_used_const cb k o2); [|exact Hv].
    intros m Hm. apply Ho, elem_of_app. now right. }
  assert (Hl1 : length ws1 = n).
  { unfold ws1. rewrite length_zip_with, length_replicate. lia. }
  assert (Hl2 : length ws2 = k).
  { unfold ws2. rewrite length_zip_with, length_replicate. lia. }
  assert (Hca : (Qc_of_Z (Z.of_nat n) * (ca * Qc_of_Z 1) = 1)%Qc).
  { unfold ca. rewrite Z2Qc_inj_1. field. exact Hn0. }
  assert (Hcb : (Qc_of_Z (Z.of_nat k) * (cb * Qc_of_Z 1) = -(1))%Qc).
  { unfold cb. change (Qc_of_Z (-1)) with (Qc_of_Z (Z.opp 1)).
    rewrite Z2Qc_inj_opp, Z2Qc_inj_1. field. exact Hk0. }
  assert (Hsum : sum_axis0 (ws1 ++ ws2) p = F.zero).
  { unfold sum_axis0, F.sum, F.zero, F.of_Z. rewrite map_app, fold_left_app.
    rewrite (sum_const_list ws1 p _ Hw1), (sum_const_list ws2 p _ Hw2), Hl1, Hl2.
    f_equal. rewrite Hca, Hcb, Z2Qc_inj_0. ring. }
  unfold stack_mean, norm. rewrite Hsum.
  replace (F.add F.zero (F.of_bool (F.eqb F.zero F.zero))) with F.one
    by (symmetry; apply same_eq; reflexivity).
  unfold mul_stack. rewrite zip_with_app by lia.
  fold (mul_stack S1 ws1). fold (mul_stack S2 ws2).
  unfold sum_axis0, F.sum, F.zero, F.of_Z. rewrite map_app, fold_left_app.
  rewrite (sum_const_list (mul_stack S1 ws1) p (qa * (ca * Qc_of_Z 1)))
    by (intros v; now apply mul_stack_const).
  rewrite (sum_const_list (mul_stack S2 ws2) p (qb * (cb * Qc_of_Z 1)))
    by (intros v; now apply mul_stack_const).
  unfold mul_stack. rewrite !length_zip_with, HS1, HS2, Hl1, Hl2, !Nat.min_id.
  unfold F.one, F.of_Z. cbn [F.div].
  rewrite (proj2 (Qc_eqb_false _ _)) by (rewrite Z2Qc_inj_1; discriminate).
  f_equal. rewrite Z2Qc_inj_0, Z2Qc_inj_1.
  transitivity (qa * (Qc_of_Z (Z.of_nat n) * (ca * Qc_of_Z 1))
                + qb * (Qc_of_Z (Z.of_nat k) * (cb * Qc_of_Z 1)))%Qc.
  - unfold Qcdiv. rewrite Z2Qc_inj_1. field. discriminate.
  - rewrite Hca, Hcb. ring.
Qed.

(** With two or more science frames at [qa] and background frames at [qb],
    no pixel masked, the image that [proc] returns is [qa - qb]. *)
Lemma proc_difference_of_constant_frames
      E bias pixel_flat b illum_flat sigrej maxiters w qa qb :
  constructed (self w) -> (1 < nsci (self w))%nat -> bg_file_list (self w) <> [] ->
  (forall f p, f ∈ file_list (self w) ->
     process E f bias pixel_flat illum_flat (VIntImg b) p = F.Fin qa) ->
  (forall f p, f ∈ bg_file_list (self w) ->
     process E f bias pixel_flat illum_flat (VIntImg b) p = F.Fin qb) ->
  (forall fr p, fr ∈ proc_frames E bias pixel_flat illum_flat b (self w) ->
     f_mask fr p = 0) ->
  returns (proc E bias pixel_flat (VIntImg b) illum_flat false sigrej maxiters) w
    (fun r _ => forall p, r_sciimg r p = F.Fin (qa - qb)).
Proof.
  intros Hc Hn Hbg Ha Hb Hm.
  assert (Hir : ir_redux (self w) = true).
  { rewrite (constructed_ir_redux _ Hc). now rewrite bool_decide_eq_false_2. }
  pose proof Hc as (Hnsci & Hnbg & _).
  assert (Hk : (0 < nbg (self w))%nat).
  { rewrite Hnbg. destruct (bg_file_list (self w)); [congruence | simpl; lia]. }
  set (frames := proc_frames E bias pixel_flat illum_flat b (self w)) in *.
  eapply returns_impl;
    [|apply proc_after_stack,
        (proc_stack_multi E bias pixel_flat b illum_flat false sigrej maxiters w
           (unmasked frames) Hc Hn (andb_false_r _) eq_refl)].
  2:{ unfold unmasked. now rewrite length_map. }
  intros r' w' (r & w1 & (-> & _) & Hsci & _) p.
  rewrite Hsci. unfold stacked_result, stacked, stack_frames. cbn [r_sciimg s_sciimg].
  rewrite Hir. fold frames. unfold frames, proc_frames, all_files, unmasked.
  rewrite Hir, !map_app.
  apply stack_mean_difference; rewrite ?length_map; auto; try lia.
  - intros s Hs. apply list_elem_of_fmap in Hs as (fr & -> & Hfr).
    apply list_elem_of_fmap in Hfr as (f & -> & Hf). cbn [f_sciimg frame_of].
    now apply Ha.
  - intros s Hs. apply list_elem_of_fmap in Hs as (fr & -> & Hfr).
    apply list_elem_of_fmap in Hfr as (f & -> & Hf). cbn [f_sciimg frame_of].
    now apply Hb.
  - intros m Hm'. rewrite <- !map_app in Hm'.
    apply list_elem_of_fmap in Hm' as (fr & -> & Hfr).
    apply Z.eqb_eq, Hm. unfold frames, proc_frames, all_files. now rewrite Hir.
Qed.

(** Three science frames at 5 counts and two background frames at 2
    counts: the weights are 1/3 and -1/2 and the combined image is 3
    counts. *)
Example proc_three_on_two_off :
  returns (proc toy VNone VNone no_bpm VNone false None 5)
          (fresh ["on"; "on"; "on"] ["off"; "off"])
          (fun r _ => r_sciimg r (0, 0)%nat = F.of_Z 3).
Proof.
  apply (returns_by_eval _ _ (fun r _ => same (r_sciimg r (0, 0)%nat) (F.of_Z 3))).
  - intros r _ H. now apply same_eq.
  - vm_compute. reflexivity.
Qed.

(** * More of the code *)

(** ** [_chk_objs] *)

Lemma bind_warn {B} msg (f : unit -> M B) w :
  bind (warn msg) f w = f tt (with_warnings [msg] w).
Proof. reflexivity. Qed.

Lemma with_warnings_app m1 m2 w :
  with_warnings m2 (with_warnings m1 w) = with_warnings (m1 ++ m2) w.
Proof. unfold with_warnings. simpl. now rewrite app_assoc. Qed.

Lemma chk_objs_missing pre x post : forall w,
  (forall name, name ∈ pre -> present w name) ->
  attr w x = Some VNone ->
  exists hint,
    (length hint <= 1)%nat /\
    _chk_objs (pre ++ x :: post) w = (Ok false, with_warnings (needs_msg x :: hint) w).
Proof.
  induction pre as [|y pre IH]; intros w Hpre Hx; cbn [app _chk_objs].
  - rewrite (bind_getattr _ _ _ _ Hx). cbn [is_None].
    rewrite bind_warn. fold (needs_msg x).
    repeat match goal with
           | |- context [if ?b then _ else _] => destruct b
           end;
      rewrite ?bind_assoc, ?bind_warn, ?bind_ret, ?with_warnings_app; unfold ret;
      eexists; (split; [|reflexivity]); simpl; lia.
  - destruct (Hpre y (list_elem_of_here _ _)) as (v & Hv & Hn).
    rewrite (bind_getattr _ _ _ _ Hv), Hn. apply IH; [|exact Hx].
    intros name Hname. apply Hpre. now right.
Qed.

(** [_chk_objs] checks the attributes in the order of the list: it
    returns [True] and prints nothing when none of them is [None], and
    otherwise returns [False] after a warning that names the first that is
    [None], followed by at most one line on the stage to run.  It assigns
    nothing. *)
Theorem chk_objs_reports_first_missing items w :
  ((forall name, name ∈ items -> present w name) ->
   _chk_objs items w = (Ok true, w)) /\
  (forall pre x post,
     items = pre ++ x :: post ->
     (forall name, name ∈ pre -> present w name) ->
     attr w x = Some VNone ->
     exists hint,
       (length hint <= 1)%nat /\
       _chk_objs items w = (Ok false, with_warnings (needs_msg x :: hint) w)).
Proof.
  split.
  - apply chk_objs_present.
  - intros pre x post -> Hpre Hx. now apply chk_objs_missing.
Qed.

Lemma chk_objs_reports_first_missing_witness :
  let w := with_attr "sciimg" (VFloatImg (fun _ => F.one)) (fresh ["on"] []) in
  (forall name, name ∈ ["sciimg"] -> present w name) /\
  attr w "sciivar" = Some VNone /\
  exists hint,
    (length hint <= 1)%nat /\
    _chk_objs ["sciimg"; "sciivar"; "rn2img"] w
    = (Ok false, with_warnings (needs_msg "sciivar" :: hint) w).
Proof.
  intros w.
  assert (Hpre : forall name, name ∈ ["sciimg"] -> present w name).
  { intros name Hn. apply list_elem_of_singleton in Hn as ->.
    eexists. split; reflexivity. }
  split; [exact Hpre|]. split; [reflexivity|].
  exact (proj2 (chk_objs_reports_first_missing ["sciimg"; "sciivar"; "rn2img"] w)
               ["sciimg"] "sciivar" ["rn2img"] eq_refl Hpre eq_refl).
Defined.

(** ** Prerequisites, where they are checked *)

(** [get_ech_objects] checks its prerequisites before anything else: when
    the image, its inverse variance or the global sky is [None], it raises
    the error of [msgs.error] after the warning that names the first of them
    that is missing, and has assigned nothing. *)
Theorem get_ech_objects_missing E Fd tslits_dict w pre x post :
  ["sciimg"; "sciivar"; "global_sky"] = pre ++ x :: post ->
  (forall name, name ∈ pre -> present w name) ->
  attr w x = Some VNone ->
  exists hint,
    (length hint <= 1)%nat /\
    get_ech_objects E Fd tslits_dict w
    = (Raise (PypeItError
                "All quantities necessary to run ech_objfind() have not been set."),
       with_warnings (needs_msg x :: hint) w).
Proof.
  intros Hitems Hpre Hx.
  destruct (chk_objs_missing pre x post w Hpre Hx) as (hint & Hlen & Hchk).
  exists hint. split; [exact Hlen|].
  unfold get_ech_objects. rewrite Hitems, (bind_Ok _ _ _ _ _ Hchk). reflexivity.
Qed.

Lemma get_ech_objects_missing_witness :
  ["sciimg"; "sciivar"; "global_sky"] = [] ++ "sciimg" :: ["sciivar"; "global_sky"] /\
  (forall name, name ∈ [] -> present (fresh ["on"] []) name) /\
  attr (fresh ["on"] []) "sciimg" = Some VNone /\
  exists hint,
    get_ech_objects toy (mkFinders (fun _ _ _ _ _ _ => ([], fun _ => false, fun _ => false))
                                   (fun _ _ _ _ _ => []))
                    (VSlits three_slits) (fresh ["on"] [])
    = (Raise (PypeItError
                "All quantities necessary to run ech_objfind() have not been set."),
       with_warnings (needs_msg "sciimg" :: hint) (fresh ["on"] [])).
Proof.
  split; [reflexivity|].
  assert (Hpre : forall name : string, name ∈ [] -> present (fresh ["on"] []) name)
    by (intros name Hn; inversion Hn).
  split; [exact Hpre|]. split; [reflexivity|].
  destruct (get_ech_objects_missing toy
              (mkFinders (fun _ _ _ _ _ _ => ([], fun _ => false, fun _ => false))
                         (fun _ _ _ _ _ => []))
              (VSlits three_slits) (fresh ["on"] []) [] "sciimg"
              ["sciivar"; "global_sky"] eq_refl Hpre eq_refl) as (hint & _ & H).
  exists hint. exact H.
Defined.

Lemma assign_slitmask_held E tsl slitmask w {B} (f : image Z -> M B) :
  attr w "slitmask" = Some (VIntImg slitmask) ->
  bind (assign_slitmask E tsl) f w = f slitmask w.
Proof.
  intros Hs. unfold assign_slitmask.
  rewrite bind_assoc, (bind_getattr _ _ _ _ Hs). cbn [is_None].
  rewrite bind_assoc, bind_ret, bind_assoc, (bind_getattr _ _ _ _ Hs). reflexivity.
Qed.

(** [local_skysub_extract] reaches the check of its prerequisites when the
    masked slits and the slit map are known: it then raises the error of
    [msgs.error] after the warning that names the first prerequisite that is
    [None], and the models are not assigned. *)
Theorem local_skysub_extract_missing
        E w sobjs waveimg ms r a w1 slitmask pre x post :
  slits_given (with_attr "waveimg" waveimg w) ms r a w1 ->
  attr w "slitmask" = Some (VIntImg slitmask) ->
  is_Some (attr w "tslits_dict") ->
  ["sciimg"; "sciivar"; "rn2img"; "global_sky"; "tilts"; "waveimg"; "tslits_dict"]
  = pre ++ x :: post ->
  (forall name, name ∈ pre -> present (with_attr "waveimg" waveimg w) name) ->
  attr (with_attr "waveimg" waveimg w) x = Some VNone ->
  exists hint,
    (length hint <= 1)%nat /\
    local_skysub_extract E sobjs waveimg ms w
    = (Raise (PypeItError
                "All quantities necessary to run local_skysub_extract() have not been set."),
       with_warnings (needs_msg x :: hint) w1).
Proof.
  intros Hgiven Hsm [tsl Htsl] Hitems Hpre Hx.
  destruct (slits_given_world _ _ _ _ _ Hgiven)
    as (Harr & Hms & Hsame & Hself & _ & _ & _).
  assert (Hin : forall name,
             name ∈ ["sciimg"; "sciivar"; "rn2img"; "global_sky"; "tilts"; "waveimg";
                     "tslits_dict"] -> name <> "maskslits").
  { intros name Hn ->. repeat (apply elem_of_cons in Hn as [Hn|Hn]; [discriminate|]).
    inversion Hn. }
  assert (Hpre1 : forall name, name ∈ pre -> present w1 name).
  { intros name Hn. destruct (Hpre name Hn) as (v & Hv & Hnn). exists v.
    split; [|exact Hnn]. rewrite Hsame; [exact Hv|].
    apply Hin. rewrite Hitems. apply elem_of_app. now left. }
  assert (Hx1 : attr w1 x = Some VNone).
  { rewrite Hsame; [exact Hx|]. apply Hin. rewrite Hitems.
    apply elem_of_app. right. left. }
  destruct (chk_objs_missing pre x post w1 Hpre1 Hx1) as (hint & Hlen & Hchk).
  exists hint. split; [exact Hlen|].
  assert (Hsm1 : attr w1 "slitmask" = Some (VIntImg slitmask)) by solve_attr.
  unfold local_skysub_extract.
  rewrite bind_setattr, (get_goodslits_returns _ _ _ _ _ _ Hgiven).
  mstep. rewrite (assign_slitmask_held E _ slitmask _ _ Hsm1).
  rewrite Hitems, (bind_Ok _ _ _ _ _ Hchk). reflexivity.
Qed.

Lemma local_skysub_extract_missing_witness :
  let w := with_attr "maskslits" (VBoolArr 0)
             (with_attr "slitmask" (VIntImg (fun _ => 0))
                (with_attr "tslits_dict" (VSlits three_slits)
                   (with_attr "rn2img" flat_image
                      (with_attr "sciivar" flat_image
                         (with_attr "sciimg" flat_image
                            (with_array [false; false; false] (fresh ["on"] []))))))) in
  slits_given (with_attr "waveimg" flat_image w) VNone 0 [false; false; false]
              (with_attr "waveimg" flat_image w) /\
  attr w "slitmask" = Some (VIntImg (fun _ => 0)) /\
  is_Some (attr w "tslits_dict") /\
  (forall name, name ∈ ["sciimg"; "sciivar"; "rn2img"] ->
                present (with_attr "waveimg" flat_image w) name) /\
  attr (with_attr "waveimg" flat_image w) "global_sky" = Some VNone /\
  exists hint,
    local_skysub_extract toy one_object flat_image VNone w
    = (Raise (PypeItError
                "All quantities necessary to run local_skysub_extract() have not been set."),
       with_warnings (needs_msg "global_sky" :: hint) (with_attr "waveimg" flat_image w)).
Proof.
  intros w.
  assert (Hg : slits_given (with_attr "waveimg" flat_image w) VNone 0
                 [false; false; false] (with_attr "waveimg" flat_image w))
    by (apply slits_previous; reflexivity).
  assert (Hpre : forall name, name ∈ ["sciimg"; "sciivar"; "rn2img"] ->
                              present (with_attr "waveimg" flat_image w) name).
  { intros name Hn.
    repeat (apply elem_of_cons in Hn as [->|Hn]; [eexists; split; reflexivity|]).
    inversion Hn. }
  split; [exact Hg|]. split; [reflexivity|]. split; [eexists; reflexivity|].
  split; [exact Hpre|]. split; [reflexivity|].
  destruct (local_skysub_extract_missing toy w one_object flat_image VNone 0
              [false; false; false] _ (fun _ => 0)
              ["sciimg"; "sciivar"; "rn2img"] "global_sky"
              ["tilts"; "waveimg"; "tslits_dict"] Hg eq_refl
              (ex_intro _ _ eq_refl) eq_refl Hpre eq_refl) as (hint & _ & H).
  exists hint. exact H.
Defined.


(** ** [run_the_steps] *)

Lemma run_step_raises step w : exists e, run_step step w = (Raise e, w).
Proof.
  unfold run_step. destruct (attrs (self w) !! _); [eauto|].
  destruct (bool_decide _); eauto.
Qed.

(** [run_the_steps] returns only when no step is recorded.  With a step
    recorded it raises at the first, before anything is run, and for the
    steps that the methods of the class record the error is the missing
    attribute [get_<step>]. *)
Theorem run_the_steps_runs_nothing w steps :
  attr w "steps" = Some (VStrs steps) ->
  (steps = [] -> run_the_steps w = (Ok tt, w)) /\
  (steps <> [] -> exists e, run_the_steps w = (Raise e, w)) /\
  (forall s rest,
     steps = s :: rest -> s ∈ recorded_steps ->
     attr w ("get_" ++ s)%string = None ->
     run_the_steps w = (Raise (AttributeError ("get_" ++ s)%string), w)).
Proof.
  intros Hst. unfold run_the_steps. rewrite (bind_getattr _ _ _ _ Hst).
  split; [|split].
  - intros ->. reflexivity.
  - intros Hne. destruct steps as [|s rest]; [congruence|]. cbn [for_each].
    destruct (run_step_raises s w) as [e He]. exists e.
    now rewrite (bind_Raise _ _ _ _ _ He).
  - intros s rest -> Hs Hnone. cbn [for_each].
    erewrite bind_Raise; [reflexivity|].
    unfold run_step. unfold attr in Hnone. rewrite Hnone.
    unfold recorded_steps in Hs.
    repeat (apply elem_of_cons in Hs as [->|Hs]; [reflexivity|]). inversion Hs.
Qed.

Lemma run_the_steps_runs_nothing_witness :
  let w := with_attr "steps" (VStrs ["global_skysub"; "local_skysub_extract"])
                     (fresh ["on"] []) in
  attr w "steps" = Some (VStrs ["global_skysub"; "local_skysub_extract"]) /\
  "global_skysub" ∈ recorded_steps /\
  attr w "get_global_skysub" = None /\
  run_the_steps w = (Raise (AttributeError "get_global_skysub"), w).
Proof.
  intros w. split; [reflexivity|].
  assert (Hin : "global_skysub" ∈ recorded_steps) by (right; left).
  split; [exact Hin|]. split; [reflexivity|].
  exact (proj2 (proj2 (run_the_steps_runs_nothing w _ eq_refl))
               "global_skysub" ["local_skysub_extract"] eq_refl Hin eq_refl).
Defined.

(** ** [__repr__] *)

Lemma append_cons a (s1 s2 : string) :
  (String a s1 ++ s2)%string = String a (s1 ++ s2)%string.
Proof. reflexivity. Qed.

Lemma append_assoc (s1 s2 s3 : string) :
  ((s1 ++ s2) ++ s3)%string = (s1 ++ s2 ++ s3)%string.
Proof.
  induction s1 as [|a s1 IH]; [reflexivity|].
  now rewrite !append_cons, IH.
Qed.

Lemma append_nil_r (s : string) : (s ++ EmptyString)%string = s.
Proof. induction s as [|a s IH]; [reflexivity|]. now rewrite append_cons, IH. Qed.

Lemma length_append (s1 s2 : string) :
  String.length (s1 ++ s2) = (String.length s1 + String.length s2)%nat.
Proof.
  induction s1 as [|a s1 IH]; [reflexivity|].
  rewrite append_cons. cbn [String.length]. now rewrite IH.
Qed.

Lemma substring_prefix (s1 s2 : string) :
  substring 0 (String.length s1) (s1 ++ s2) = s1.
Proof.
  induction s1 as [|a s1 IH].
  - destruct s2; reflexivity.
  - rewrite append_cons. cbn [String.length substring]. now rewrite IH.
Qed.

Lemma drop_last_two_comma (s : string) : drop_last_two (s ++ ", ") = s.
Proof.
  unfold drop_last_two. rewrite length_append. cbn [String.length].
  replace (String.length s + 2 - 2)%nat with (String.length s) by lia.
  apply substring_prefix.
Qed.

Lemma fold_steps steps : forall txt s,
  fold_left (fun acc step => (acc ++ step ++ ", ")%string) steps (txt ++ s ++ ", ")%string
  = (txt ++ String.concat ", " (s :: steps) ++ ", ")%string.
Proof.
  induction steps as [|s' steps IH]; intros txt s; cbn [fold_left].
  - reflexivity.
  - rewrite IH. change (String.concat ", " (s :: s' :: steps))
      with (s ++ ", " ++ String.concat ", " (s' :: steps))%string.
    now rewrite !append_assoc.
Qed.

(** [__repr__] gives the number of science frames and, when steps are
    recorded, their names separated by a comma and a blank between square
    brackets: the comma after the last of them is taken off. *)
Theorem repr_format w steps :
  attr w "steps" = Some (VStrs steps) ->
  __repr__ w
  = (Ok (match steps with
         | [] => "<ScienceImage: nimg=" ++ pretty (nsci (self w)) ++ ">"
         | _ => "<ScienceImage: nimg=" ++ pretty (nsci (self w)) ++ " steps: ["
                ++ String.concat ", " steps ++ "]>"
         end)%string, w).
Proof.
  intros Hst. unfold __repr__.
  rewrite bind_get_self, (bind_getattr _ _ _ _ Hst). unfold ret. f_equal. f_equal.
  destruct steps as [|s steps]; [reflexivity|].
  cbn [length Nat.ltb Nat.leb fold_left].
  rewrite fold_steps, <- (append_assoc _ _ ", "), drop_last_two_comma.
  now rewrite !append_assoc.
Qed.

Lemma repr_format_witness :
  let w := with_attr "steps" (VStrs ["find_objects"; "global_skysub"])
                     (fresh ["a"; "b"; "c"] []) in
  attr w "steps" = Some (VStrs ["find_objects"; "global_skysub"]) /\
  __repr__ w = (Ok "<ScienceImage: nimg=3 steps: [find_objects, global_skysub]>", w).
Proof.
  intros w. split; [reflexivity|].
  exact (repr_format w ["find_objects"; "global_skysub"] eq_refl).
Defined.

(** ** The bits of [_build_mask] *)

Lemma turn_on_where_zero mask indx f p :
  turn_on_where mask indx f p = 0 <-> mask p = 0 /\ indx p = false.
Proof.
  unfold turn_on_where, turn_on. destruct (indx p).
  - rewrite Z.lor_eq_0_iff. split; [|intros [_ H]; discriminate].
    intros [_ H]. destruct f; discriminate H.
  - tauto.
Qed.

Lemma lor_below a b n :
  0 <= n -> 0 <= a < 2 ^ n -> 0 <= b < 2 ^ n -> 0 <= Z.lor a b < 2 ^ n.
Proof.
  intros Hn [Ha0 Ha] [Hb0 Hb]. split; [now apply Z.lor_nonneg|].
  destruct (Z.eq_dec a 0) as [->|Hane]; [now rewrite Z.lor_0_l|].
  destruct (Z.eq_dec b 0) as [->|Hbne]; [now rewrite Z.lor_0_r|].
  assert (Hl : 0 < Z.lor a b).
  { assert (0 <= Z.lor a b) by now apply Z.lor_nonneg.
    assert (Z.lor a b <> 0) by (rewrite Z.lor_eq_0_iff; tauto). lia. }
  apply Z.log2_lt_pow2; [exact Hl|].
  rewrite Z.log2_lor by lia.
  apply Z.max_lub_lt; apply Z.log2_lt_pow2; lia.
Qed.

Lemma turn_on_where_below mask indx f p :
  f <> EXTRACT -> 0 <= mask p < 2 ^ 8 -> 0 <= turn_on_where mask indx f p < 2 ^ 8.
Proof.
  intros Hf Hm. unfold turn_on_where, turn_on. destruct (indx p); [|exact Hm].
  apply lor_below; [lia | exact Hm |].
  destruct f; try congruence; (split; [apply Z.leb_le | apply Z.ltb_lt]; reflexivity).
Qed.

(** The pixels of a mask of [_build_mask] that are clear are the good
    pixels: not in the bad-pixel mask, not a cosmic ray, below saturation,
    above the minimum counts when that is tested, on a slit when the slit
    map is given, finite, with a finite and positive inverse variance.  The
    mask fits in the eight low bits, and the bit of the extraction is never
    set in it. *)
Theorem build_mask_clear_iff_good E sci ivar cr mc slitarg w b :
  attr w "bpm" = Some (VIntImg b) ->
  (is_None slitarg = false -> is_Some (attr w "slitmask")) ->
  returns (_build_mask E (VFloatImg sci) (VFloatImg ivar) (VBoolImg cr) mc slitarg) w
    (fun m _ => forall p,
       (m p = 0 <->
        b p = 0 /\ cr p = false /\
        F.geb (sci p) (saturation E) = false /\
        (truthy mc = true -> F.leb (sci p) (mincounts E) = false) /\
        (forall s, offslits_of w slitarg = Some s -> s p <> -1) /\
        F.isfinite (sci p) = true /\
        F.gtb (ivar p) F.zero = true /\
        F.isfinite (ivar p) = true) /\
       0 <= m p < 2 ^ 8 /\
       flagged (m p) EXTRACT = false).
Proof.
  intros Hb Hs. exists (mask_bits E b sci ivar cr mc (offslits_of w slitarg)), w.
  split; [now apply build_mask_returns|].
  intros p. split; [|split].
  - unfold mask_bits.
    destruct (offslits_of w slitarg) as [s|], (truthy mc);
      rewrite !turn_on_where_zero, ?negb_false_iff, ?Z.eqb_eq, ?Z.eqb_neq;
      intuition (try congruence);
      try match goal with
          | H : forall s0, Some ?s = Some s0 -> _ |- _ => now apply (H s eq_refl)
          | H : forall s0, None = Some s0 -> _ |- _ => idtac
          end.
  - unfold mask_bits.
    destruct (offslits_of w slitarg), (truthy mc);
      repeat (apply turn_on_where_below; [discriminate|]); lia.
  - unfold mask_bits. rewrite !flagged_turn_on_where.
    destruct (offslits_of w slitarg), (truthy mc); rewrite ?flagged_turn_on_where;
      unfold flagged; simpl; rewrite ?andb_false_r; reflexivity.
Qed.

Lemma build_mask_clear_iff_good_witness :
  let w := with_attr "bpm" no_bpm (fresh ["spot"] []) in
  let sci : image float := fun p => F.of_Z (level "spot" p) in
  attr w "bpm" = Some (VIntImg (fun _ => 0)) /\
  (is_None VNone = false -> is_Some (attr w "slitmask")) /\
  returns (_build_mask toy (VFloatImg sci) (VFloatImg (fun _ => F.one))
             (VBoolImg (fun _ => false)) 1 VNone) w
    (fun m _ => forall p,
       (m p = 0 <->
        0 = 0 /\ false = false /\
        F.geb (sci p) (saturation toy) = false /\
        (truthy 1 = true -> F.leb (sci p) (mincounts toy) = false) /\
        (forall s, offslits_of w VNone = Some s -> s p <> -1) /\
        F.isfinite (sci p) = true /\
        F.gtb F.one F.zero = true /\
        F.isfinite F.one = true) /\
       0 <= m p < 2 ^ 8 /\
       flagged (m p) EXTRACT = false).
Proof.
  intros w sci.
  split; [reflexivity|]. split; [discriminate|].
  apply (build_mask_clear_iff_good toy sci (fun _ => F.one) (fun _ => false) 1 VNone w
           (fun _ => 0)); [reflexivity | discriminate].
Defined.
